(** * Online-learning backend: credential service and course catalog

    A shallow embedding of [src/index.js] (the later revision in the file,
    the one with the course routes) and the properties of its handlers.

    Conventions of the embedding.
    - A JavaScript string is a [string]: each [ascii] is one UTF-16 code
      unit below 256, so [String.length] is the [.length] property.
    - A JSON value of a request body is a [jsval]; bodies are flat objects
      of scalars.  [undefined] (an absent property) is [None] in
      [option jsval].
    - The [email] and [password] properties read by the credential routes
      are strings, as in the data model of the specification.
    - A handler is an [async] computation over the [world]: the two
      collections of the document store and the log of posts sent to the
      image host.  A rejected promise or a thrown exception is [Throw];
      the [try]/[catch] of every handler turns it into the 500 response.
    - What the outside supplies to one request (the clock, the salt drawn
      by bcrypt, the identifier drawn by the driver, the image host's
      answer) is an [env]. The store and the token secret are assumed to be
      configured and reachable.
    - The store is a server of the Stable API the client asks for
      ([ServerApiVersion.v1]), which accepts a [$set] that lists nothing. *)

From Stdlib Require Import ZArith NArith List String Ascii Bool Lia.
From Stdlib Require Import Floats.PrimFloat.
From stdpp Require Import base option list gmap strings fin_maps.

Local Open Scope string_scope.
Local Open Scope list_scope.

(** ** JavaScript values *)

Inductive jsval : Type :=
| JNull
| JBool (b : bool)
| JNum (x : float)
| JStr (s : string)
| JDate (ms : Z).

(** ToBoolean: [undefined], [null], [false], [0], [-0], [NaN] and the
    empty string are falsy, everything else is truthy. *)
Definition truthy (v : option jsval) : bool :=
  match v with
  | None => false
  | Some JNull => false
  | Some (JBool b) => b
  | Some (JNum x) => negb (PrimFloat.eqb x 0%float || PrimFloat.is_nan x)
  | Some (JStr s) => negb (String.eqb s "")
  | Some (JDate _) => true
  end.

(** ** Regular expressions of the password policy *)

(** [/[...]/.test(s)] for a one-class pattern: some code unit of [s] is in
    the class. *)
Fixpoint regex_test (cls : ascii -> bool) (s : string) : bool :=
  match s with
  | EmptyString => false
  | String c rest => cls c || regex_test cls rest
  end.

(** The class [[A-Z]]: code units 0x41 to 0x5A. *)
Definition class_AZ (c : ascii) : bool :=
  let n := N_of_ascii c in (65 <=? n)%N && (n <=? 90)%N.

(** The class [[a-z]]: code units 0x61 to 0x7A. *)
Definition class_az (c : ascii) : bool :=
  let n := N_of_ascii c in (97 <=? n)%N && (n <=? 122)%N.

(** ** bcryptjs *)

(** UTF-8 bytes of a string of code units below 256. *)
Fixpoint utf8 (s : string) : list ascii :=
  match s with
  | EmptyString => []
  | String c rest =>
      let n := N_of_ascii c in
      if (n <? 128)%N then c :: utf8 rest
      else ascii_of_N (192 + n / 64) :: ascii_of_N (128 + n mod 64) :: utf8 rest
  end.

(** The key bcryptjs feeds to the cipher: the UTF-8 bytes of the password
    followed by a NUL, read cyclically ([offp = (offp + 1) % data.length])
    for the 18 words of the P-array, that is 72 bytes. *)
Definition bcrypt_key (password : string) : list ascii :=
  let data := utf8 password ++ [Ascii.zero] in
  map (fun i => nth (i mod length data) data Ascii.zero) (seq 0 72).

(** The stored hash string (version and cost, then salt, then digest), as
    its two variable parts. *)
Record bcrypt_hash := { bh_salt : string; bh_digest : string }.

(** ** Session tokens *)

(** The payload of a token signed by [jwt.sign({ email }, secret,
    { expiresIn: "7d" })]; with a fixed secret the signed string is
    determined by it. *)
Record jwt := { jwt_email : string; jwt_iat : Z; jwt_exp : Z }.

(** ** Documents *)

Record user := {
  name : option jsval;
  email : string;
  photoURL : option jsval;
  password : option bcrypt_hash;
  fromGoogle : option bool
}.

(** A 12-byte ObjectId, as the number its 24 hexadecimal digits write. *)
Abbreviation oid := N.

(** A course record: its identifier, and the scalars it holds, each under
    its path.  A field of the record itself has a path of one name;
    ["a.b"] is the field [b] of the document embedded as field [a]. *)
Record course := { _id : oid; fields : gmap string jsval }.

Record world := {
  usersCollection : list user;
  coursesCollection : list course;
  imgbb_posts : list (option jsval)
}.

Record env := {
  now : Z;
  salt : string;
  fresh_id : oid;
  imgbb_reply : option string
}.

(** ** Responses *)

Inductive payload : Type :=
| Message (message : string)
| MessageToken (message : string) (token : jwt)
| MessageError (message : string)
| MessageCourse (message : string) (c : course)
| Courses (cs : list course)
| Text (s : string).

Record response := { status : N; body : payload }.

(** ** Asynchronous computations *)

Inductive outcome (A : Type) : Type :=
| Value (a : A)
| Throw.
Arguments Value {A} a.
Arguments Throw {A}.

Definition async (A : Type) : Type := world -> outcome A * world.

#[export] Instance async_ret : MRet async := fun A a w => (Value a, w).

#[export] Instance async_bind : MBind async := fun A B k m w =>
  match m w with
  | (Value a, w') => k a w'
  | (Throw, w') => (Throw, w')
  end.

Definition throw {A} : async A := fun w => (Throw, w).

(** [try { body } catch (error) { res.status(500).json({ message:
    "Server error", error }) }]. *)
Definition try_catch (handler : async response) : world -> response * world :=
  fun w =>
    match handler w with
    | (Value r, w') => (r, w')
    | (Throw, w') => ({| status := 500; body := MessageError "Server error" |}, w')
    end.

(** [res.status(code).json(payload)]. *)
Definition json (code : N) (p : payload) : async response :=
  mret {| status := code; body := p |}.

(** [jwt.sign({ email }, process.env.JWT_SECRET, { expiresIn: "7d" })]:
    issued at the current second, expiring seven days later. *)
Definition jwt_sign (e : env) (email0 : string) : async jwt :=
  let iat := (now e / 1000)%Z in
  mret {| jwt_email := email0; jwt_iat := iat; jwt_exp := (iat + 7 * 24 * 60 * 60)%Z |}.

(** ** The document store *)

Definition set_users (us : list user) (w : world) : world :=
  {| usersCollection := us;
     coursesCollection := coursesCollection w;
     imgbb_posts := imgbb_posts w |}.

Definition set_courses (cs : list course) (w : world) : world :=
  {| usersCollection := usersCollection w;
     coursesCollection := cs;
     imgbb_posts := imgbb_posts w |}.

(** [usersCollection.findOne({ email })]: the first record with that
    email, or [null]. *)
Definition users_findOne (email0 : string) : async (option user) :=
  fun w => (Value (List.find (fun u => String.eqb (email u) email0) (usersCollection w)), w).

(** [usersCollection.insertOne(newUser)]. *)
Definition users_insertOne (u : user) : async unit :=
  fun w => (Value tt, set_users (usersCollection w ++ [u]) w).

Definition has_id (o : oid) (c : course) : bool := N.eqb (_id c) o.

(** A query on the courses: [{}] is [None], [{ category }] is [Some]. *)
Definition matches (query : option string) (c : course) : bool :=
  match query with
  | None => true
  | Some cat =>
      match fields c !! "category" with
      | Some (JStr s) => String.eqb s cat
      | _ => false
      end
  end.

(** [coursesCollection.find(query).toArray()]: the matching records in
    the order of the collection. *)
Definition courses_find (query : option string) : async (list course) :=
  fun w => (Value (List.filter (matches query) (coursesCollection w)), w).

(** [coursesCollection.insertOne(newCourse)]: the driver draws the [_id]
    and writes it into [newCourse]; the store refuses an [_id] it already
    holds. *)
Definition courses_insertOne (e : env) (doc : gmap string jsval) : async course :=
  fun w =>
    let c := {| _id := fresh_id e; fields := doc |} in
    if List.existsb (has_id (fresh_id e)) (coursesCollection w) then (Throw, w)
    else (Value c, set_courses (coursesCollection w ++ [c]) w).

Fixpoint update_first (o : oid) (f : course -> course) (cs : list course) : list course :=
  match cs with
  | [] => []
  | c :: rest => if has_id o c then f c :: rest else c :: update_first o f rest
  end.

(** *** The paths of [$set]

    The store reads a key of [$set] as a path: names separated by dots. *)

Fixpoint split_dots (s : string) : list string :=
  match s with
  | EmptyString => [EmptyString]
  | String c rest =>
      if Ascii.eqb c "." then EmptyString :: split_dots rest
      else
        match split_dots rest with
        | h :: t => String c h :: t
        | [] => [String c EmptyString]
        end
  end.

Fixpoint mentions (c : ascii) (s : string) : bool :=
  match s with
  | EmptyString => false
  | String a rest => Ascii.eqb a c || mentions c rest
  end.

(** A name of a path may not be empty and may not contain a NUL (the
    driver cannot write such a key).  Names that start with [$] are the
    array operators and the reserved names of the store; a record of scalars
    has no array for them, updates through them are not modelled any
    further, and a [$set] that lists one is counted as refused. *)
Definition valid_name (n : string) : bool :=
  match n with
  | EmptyString => false
  | String c _ => negb (Ascii.eqb c "$") && negb (mentions Ascii.zero n)
  end.

(** [p] is a proper prefix of [q], name by name. *)
Fixpoint strictly_under (p q : list string) : bool :=
  match p, q with
  | [], _ :: _ => true
  | x :: p', y :: q' => String.eqb x y && strictly_under p' q'
  | _, _ => false
  end.

(** The path [q] leads through the path [p] and further. *)
Definition below (p q : string) : bool :=
  strictly_under (split_dots p) (split_dots q).

(** Some path of [m] lies on the way to [q]. *)
Definition covered (m : gmap string jsval) (q : string) : bool :=
  bool_decide (map_Exists (fun p _ => below p q = true) m).

(** What the store checks before it looks at any record: every path is
    made of valid names, and no listed path lies on the way to another
    listed path. *)
Definition set_parses (set : gmap string jsval) : bool :=
  bool_decide (map_Forall (fun p _ =>
    forallb valid_name (split_dots p) = true /\ covered set p = false) set).

(** What the store checks on the record it found: a path into [_id] is
    refused (the field is immutable, and a JSON value is never the ObjectId
    the record holds), and so is a path that leads through a scalar of the
    record. *)
Definition set_refused (set doc : gmap string jsval) : bool :=
  bool_decide (map_Exists (fun p _ =>
    hd EmptyString (split_dots p) = "_id" \/ covered doc p = true) set).

(** [$set] on a record: each listed path takes the listed value, in place
    of whatever the record held at that path and beyond it; the rest of the
    record stays. *)
Definition apply_set (set : gmap string jsval) (c : course) : course :=
  {| _id := _id c;
     fields := set ∪ filter (fun kv => covered set kv.1 = false) (fields c) |}.

(** [coursesCollection.updateOne({ _id }, { $set: set })].  A [$set] that
    does not parse is refused whether or not a record matches.  With no
    matching record nothing happens. *)
Definition courses_updateOne (o : oid) (set : gmap string jsval) : async unit :=
  fun w =>
    if set_parses set then
      match List.find (has_id o) (coursesCollection w) with
      | None => (Value tt, w)
      | Some c =>
          if set_refused set (fields c) then (Throw, w)
          else (Value tt, set_courses (update_first o (apply_set set) (coursesCollection w)) w)
      end
    else (Throw, w).

Fixpoint delete_first (o : oid) (cs : list course) : list course :=
  match cs with
  | [] => []
  | c :: rest => if has_id o c then rest else c :: delete_first o rest
  end.

(** [coursesCollection.deleteOne({ _id })]. *)
Definition courses_deleteOne (o : oid) : async unit :=
  fun w => (Value tt, set_courses (delete_first o (coursesCollection w)) w).

(** ** ObjectId *)

Definition hex_digit (c : ascii) : option N :=
  let n := N_of_ascii c in
  if (48 <=? n)%N && (n <=? 57)%N then Some (n - 48)%N
  else if (97 <=? n)%N && (n <=? 102)%N then Some (n - 87)%N
  else if (65 <=? n)%N && (n <=? 70)%N then Some (n - 55)%N
  else None.

Fixpoint hex_value (acc : N) (s : string) : option N :=
  match s with
  | EmptyString => Some acc
  | String c rest =>
      match hex_digit c with
      | Some d => hex_value (16 * acc + d)%N rest
      | None => None
      end
  end.

(** The identifier a string denotes: 24 hexadecimal digits. *)
Definition parse_ObjectId (id : string) : option oid :=
  if Nat.eqb (String.length id) 24 then hex_value 0%N id else None.

(** [new ObjectId(id)] throws on any other string. *)
Definition ObjectId (id : string) : async oid :=
  match parse_ObjectId id with
  | Some o => mret o
  | None => throw
  end.

(** ** The image host *)

(** [uploadToImgBB(base64Image)]: posts the image and returns
    [response.data.data.url]; a failed request rejects. *)
Definition uploadToImgBB (e : env) (base64Image : option jsval) : async string :=
  fun w =>
    let w' := {| usersCollection := usersCollection w;
                 coursesCollection := coursesCollection w;
                 imgbb_posts := imgbb_posts w ++ [base64Image] |} in
    match imgbb_reply e with
    | Some url => (Value url, w')
    | None => (Throw, w')
    end.

(** ** The handlers *)

Section Handlers.

(** The cipher of bcrypt at cost 10 (the expensive key schedule followed by
    the encryption of the magic text), from salt and 72-byte key to the
    digest.  It is the one part of bcryptjs kept abstract. *)
Variable eks_blowfish : string -> list ascii -> string.

Definition bcrypt_string (salt0 password0 : string) : bcrypt_hash :=
  {| bh_salt := salt0; bh_digest := eks_blowfish salt0 (bcrypt_key password0) |}.

(** [bcrypt.hash(password, 10)]: draws a salt and hashes under it. *)
Definition bcrypt_hash_ (e : env) (password0 : string) : async bcrypt_hash :=
  mret (bcrypt_string (salt e) password0).

(** [bcrypt.compare(password, hash)]: hashes [password] under the salt of
    [hash] and compares the results; rejects when [hash] is not a string. *)
Definition bcrypt_compare (password0 : string) (hash : option bcrypt_hash) : async bool :=
  match hash with
  | None => throw
  | Some h => mret (String.eqb (bh_digest (bcrypt_string (bh_salt h) password0)) (bh_digest h))
  end.

(** [POST /register]. *)
Definition register (e : env) (name0 : option jsval) (email0 : string)
    (photoURL0 : option jsval) (password0 : string) : world -> response * world :=
  try_catch (
    if negb (regex_test class_AZ password0) then
      json 400 (Message "Password must include at least one uppercase letter.")
    else if negb (regex_test class_az password0) then
      json 400 (Message "Password must include at least one lowercase letter.")
    else if Nat.ltb (String.length password0) 6 then
      json 400 (Message "Password must be at least 6 characters long.")
    else
      existingUser ← users_findOne email0;
      match existingUser with
      | Some _ => json 400 (Message "User already exists. Please log in.")
      | None =>
          hashedPassword ← bcrypt_hash_ e password0;
          let newUser := {| name := name0; email := email0; photoURL := photoURL0;
                            password := Some hashedPassword; fromGoogle := None |} in
          users_insertOne newUser;;
          token ← jwt_sign e email0;
          json 201 (MessageToken "Registration successful!" token)
      end).

(** [POST /login]. *)
Definition login (e : env) (email0 password0 : string) : world -> response * world :=
  try_catch (
    user0 ← users_findOne email0;
    match user0 with
    | None => json 400 (Message "No user found with this email.")
    | Some u =>
        isPasswordValid ← bcrypt_compare password0 (password u);
        if negb isPasswordValid then json 400 (Message "Incorrect password.")
        else
          token ← jwt_sign e email0;
          json 200 (MessageToken "Login successful!" token)
    end).

(** [POST /google-login]. *)
Definition googleLogin (e : env) (name0 : option jsval) (email0 : string)
    (photoURL0 : option jsval) : world -> response * world :=
  try_catch (
    user0 ← users_findOne email0;
    match user0 with
    | None =>
        users_insertOne {| name := name0; email := email0; photoURL := photoURL0;
                           password := None; fromGoogle := Some true |}
    | Some _ => mret tt
    end;;
    token ← jwt_sign e email0;
    json 200 (MessageToken "Google login successful!" token)).

(** [GET /courses]: [category ? { category } : {}]. *)
Definition listCourses (category : option string) : world -> response * world :=
  try_catch (
    let query := if truthy (JStr <$> category) then category else None in
    courses ← courses_find query;
    json 200 (Courses courses)).

(** A property of an object literal: an [undefined] value is not stored. *)
Definition prop (k : string) (v : option jsval) (o : gmap string jsval) : gmap string jsval :=
  match v with
  | Some x => <[k := x]> o
  | None => o
  end.

(** [POST /courses]. *)
Definition createCourse (e : env) (body0 : gmap string jsval) : world -> response * world :=
  try_catch (
    let title := body0 !! "title" in
    let description := body0 !! "description" in
    let category := body0 !! "category" in
    let price := body0 !! "price" in
    let instructor := body0 !! "instructor" in
    let imageBase64 := body0 !! "imageBase64" in
    if negb (truthy title) || negb (truthy description) || negb (truthy category)
       || negb (truthy price) || negb (truthy instructor) || negb (truthy imageBase64)
    then json 400 (Message "All fields are required!")
    else
      imageUrl ← uploadToImgBB e imageBase64;
      let newCourse :=
        prop "title" title (prop "description" description (prop "category" category
          (prop "price" price (prop "instructor" instructor
            (prop "image" (Some (JStr imageUrl))
              (prop "createdAt" (Some (JDate (now e))) ∅)))))) in
      inserted ← courses_insertOne e newCourse;
      json 201 (MessageCourse "Course added successfully!" inserted)).

(** [PUT /courses/:id]. *)
Definition updateCourse (id : string) (body0 : gmap string jsval) : world -> response * world :=
  try_catch (
    o ← ObjectId id;
    courses_updateOne o body0;;
    json 200 (Message "Course updated successfully!")).

(** [DELETE /courses/:id]. *)
Definition deleteCourse (id : string) : world -> response * world :=
  try_catch (
    o ← ObjectId id;
    courses_deleteOne o;;
    json 200 (Message "Course deleted successfully!")).

(** [GET /]. *)
Definition root : world -> response * world :=
  fun w => ({| status := 200; body := Text "Online Learning Platform API is running..." |}, w).

(** ** The application *)

Inductive request : Type :=
| PostRegister (name0 : option jsval) (email0 : string) (photoURL0 : option jsval)
    (password0 : string)
| PostLogin (email0 password0 : string)
| PostGoogleLogin (name0 : option jsval) (email0 : string) (photoURL0 : option jsval)
| GetCourses (category : option string)
| PostCourses (body0 : gmap string jsval)
| PutCourse (id : string) (body0 : gmap string jsval)
| DeleteCourse (id : string)
| GetRoot.

Definition app (e : env) (r : request) : world -> response * world :=
  match r with
  | PostRegister n m p pw => register e n m p pw
  | PostLogin m pw => login e m pw
  | PostGoogleLogin n m p => googleLogin e n m p
  | GetCourses c => listCourses c
  | PostCourses b => createCourse e b
  | PutCourse id b => updateCourse id b
  | DeleteCourse id => deleteCourse id
  | GetRoot => root
  end.

(** Requests served one after the other, each with what the outside
    supplies to it. *)
Fixpoint serve (rs : list (env * request)) (w : world) : world :=
  match rs with
  | [] => w
  | (e, r) :: rest => serve rest (snd (app e r w))
  end.

End Handlers.

(** ** Sample data

    Used to evaluate the handlers on concrete requests. *)

(** A stand-in for the cipher, to run the handlers on examples: the digest
    spells out the salt and the key. *)
Definition plain_cipher (salt0 : string) (key : list ascii) : string :=
  salt0 ++ string_of_list_ascii key.

Definition empty_world : world :=
  {| usersCollection := []; coursesCollection := []; imgbb_posts := [] |}.

Definition sample_env : env :=
  {| now := 1700000000000; salt := "N9qo8uLOickgx2ZMRZoMye"; fresh_id := 2%N;
     imgbb_reply := Some "https://i.ibb.co/x/cover.png" |}.

Fixpoint replicate_char (n : nat) (c : ascii) : string :=
  match n with
  | O => EmptyString
  | S n' => String c (replicate_char n' c)
  end.

(** Two passwords of 73 characters that differ in the last one only. *)
Definition long_password_a : string := "A" ++ replicate_char 71 "a" ++ "a".
Definition long_password_b : string := "A" ++ replicate_char 71 "a" ++ "b".

Definition math_course : course := {| _id := 1%N; fields := {[ "category" := JStr "math" ]} |}.
Definition art_course : course := {| _id := 2%N; fields := {[ "category" := JStr "art" ]} |}.

Definition catalog : world :=
  {| usersCollection := []; coursesCollection := [math_course; art_course]; imgbb_posts := [] |}.

Definition math_id : string := "000000000000000000000001".

(** A course body with all six properties, the price being the number 0. *)
Definition free_course_body : gmap string jsval :=
  list_to_map [("title", JStr "Algebra"); ("description", JStr "Groups and rings");
               ("category", JStr "math"); ("price", JNum 0); ("instructor", JStr "Emmy");
               ("imageBase64", JStr "iVBORw0KGgo=")].

(** ** Vocabulary of the statements *)

(** *** The password policy *)

Definition uppercase (c : ascii) : Prop :=
  (N_of_ascii "A" <= N_of_ascii c <= N_of_ascii "Z")%N.

Definition lowercase (c : ascii) : Prop :=
  (N_of_ascii "a" <= N_of_ascii c <= N_of_ascii "z")%N.

(** Some character of [s] satisfies [P]. *)
Definition has (P : ascii -> Prop) (s : string) : Prop :=
  exists c, In c (list_ascii_of_string s) /\ P c.

Definition meets_policy (pw : string) : Prop :=
  has uppercase pw /\ has lowercase pw /\ 6 <= String.length pw.

(** Reading UTF-8 back, for code units below 256: the inverse of [utf8]. *)
Fixpoint utf8_decode (fuel : nat) (bs : list ascii) : string :=
  match fuel with
  | O => EmptyString
  | S fuel' =>
      match bs with
      | [] => EmptyString
      | b :: rest =>
          if (N_of_ascii b <? 128)%N then String b (utf8_decode fuel' rest)
          else
            match rest with
            | [] => EmptyString
            | b2 :: rest' =>
                String (ascii_of_N ((N_of_ascii b - 192) * 64 + (N_of_ascii b2 - 128)))
                  (utf8_decode fuel' rest')
            end
      end
  end.

(** The password fits the key whole: with its closing NUL it takes at
    most 72 bytes, and it has no NUL of its own. *)
Definition fits_key (pw : string) : Prop :=
  length (utf8 pw) < 72 /\ Ascii.zero ∉ utf8 pw.

(** *** The responses the statements name *)

Definition uppercase_error : response :=
  {| status := 400; body := Message "Password must include at least one uppercase letter." |}.
Definition lowercase_error : response :=
  {| status := 400; body := Message "Password must include at least one lowercase letter." |}.
Definition length_error : response :=
  {| status := 400; body := Message "Password must be at least 6 characters long." |}.
Definition duplicate_user : response :=
  {| status := 400; body := Message "User already exists. Please log in." |}.
Definition incorrect_password : response :=
  {| status := 400; body := Message "Incorrect password." |}.
Definition missing_fields : response :=
  {| status := 400; body := Message "All fields are required!" |}.
Definition server_error : response :=
  {| status := 500; body := MessageError "Server error" |}.

Definition updated_ok : response :=
  {| status := 200; body := Message "Course updated successfully!" |}.
Definition deleted_ok : response :=
  {| status := 200; body := Message "Course deleted successfully!" |}.

(** *** Users *)

(** Some record of the users carries the email. *)
Definition stored (m : string) (w : world) : Prop :=
  exists u, u ∈ usersCollection w /\ email u = m.

(** At most one record per email. *)
Definition unique_emails (w : world) : Prop :=
  NoDup (map email (usersCollection w)).

(** The record [register] stores and the token the routes sign. *)
Definition registered (cipher : string -> list ascii -> string) (e : env)
    (n : option jsval) (m : string) (p : option jsval) (pw : string) : user :=
  {| name := n; email := m; photoURL := p;
     password := Some (bcrypt_string cipher (salt e) pw); fromGoogle := None |}.

Definition provisioned (n : option jsval) (m : string) (p : option jsval) : user :=
  {| name := n; email := m; photoURL := p; password := None; fromGoogle := Some true |}.

Definition token_for (e : env) (m : string) : jwt :=
  {| jwt_email := m; jwt_iat := (now e / 1000)%Z;
     jwt_exp := (now e / 1000 + 7 * 24 * 60 * 60)%Z |}.

(** One step on the users: nothing, or one record added under an email
    that no record carried. *)
Inductive users_step (w w' : world) : Prop :=
| users_same : usersCollection w' = usersCollection w -> users_step w w'
| users_added u :
    usersCollection w' = usersCollection w ++ [u] -> ~ stored (email u) w ->
    users_step w w'.

(** *** Courses *)

(** The field of the record a path starts in. *)
Definition field_of (q : string) : string := hd EmptyString (split_dots q).

(** The name of a field of the record itself, other than [_id]: a valid
    name without a dot. *)
Definition plain_name (k : string) : bool :=
  valid_name k && negb (mentions "." k) && negb (String.eqb k "_id").

(** Fields to set that are all named so. *)
Definition plain_set (b : gmap string jsval) : Prop :=
  map_Forall (fun k _ => plain_name k = true) b.

(** The store keeps [_id] unique. *)
Definition unique_ids (w : world) : Prop :=
  NoDup (map _id (coursesCollection w)).

(** The six properties [POST /courses] reads from the body. *)
Definition required : list string :=
  ["title"; "description"; "category"; "price"; "instructor"; "imageBase64"].

(** The category of the record is the string [cat]. *)
Definition category_is (cat : string) (c : course) : Prop :=
  fields c !! "category" = Some (JStr cat).

#[export] Instance category_is_dec cat c : Decision (category_is cat c).
Proof.
  unfold category_is. destruct (fields c !! "category") as [[| | |s|]|].
  1-3, 5-6: right; congruence.
  destruct (decide (s = cat)) as [->|Hne]; [left; reflexivity | right; congruence].
Defined.

(** *** Further responses and sample data *)

Definition no_user_found : response :=
  {| status := 400; body := Message "No user found with this email." |}.

Definition login_ok (e : env) (m : string) : response :=
  {| status := 200; body := MessageToken "Login successful!" (token_for e m) |}.

Definition google_ok (e : env) (m : string) : response :=
  {| status := 200; body := MessageToken "Google login successful!" (token_for e m) |}.

Definition registration_ok (e : env) (m : string) : response :=
  {| status := 201; body := MessageToken "Registration successful!" (token_for e m) |}.

Definition course_added (c : course) : response :=
  {| status := 201; body := MessageCourse "Course added successfully!" c |}.

(** The email a request carries in its body, for the three routes that
    read one. *)
Definition request_email (r : request) : option string :=
  match r with
  | PostRegister _ m _ _ => Some m
  | PostLogin m _ => Some m
  | PostGoogleLogin _ m _ => Some m
  | _ => None
  end.

(** The names of the properties [POST /courses] stores. *)
Definition stored_names : gset string :=
  {[ "title"; "description"; "category"; "price"; "instructor"; "image"; "createdAt" ]}.

(** All six properties read by [POST /courses] are truthy. *)
Definition complete (b : gmap string jsval) : Prop :=
  forall k, k ∈ required -> truthy (b !! k) = true.

(** No record of the courses has the identifier. *)
Definition unused (o : oid) (w : world) : Prop :=
  forall c, c ∈ coursesCollection w -> _id c <> o.

(** A course body with all six properties truthy, and one more property. *)
Definition algebra_body : gmap string jsval :=
  list_to_map [("title", JStr "Algebra"); ("description", JStr "Groups and rings");
               ("category", JStr "math"); ("price", JNum 30); ("instructor", JStr "Emmy");
               ("imageBase64", JStr "iVBORw0KGgo="); ("level", JStr "advanced")].

(** The identifier [sample_env] draws, as it is written in a path. *)
Definition drawn_id : string := "000000000000000000000002".

(** The outside of a request during which the image host fails. *)
Definition host_down : env :=
  {| now := 1700000000000; salt := "N9qo8uLOickgx2ZMRZoMye"; fresh_id := 3%N;
     imgbb_reply := None |}.

(** The outside of a later request: the driver draws the next identifier. *)
Definition later_env : env :=
  {| now := 1700000060000; salt := "N9qo8uLOickgx2ZMRZoMye"; fresh_id := 3%N;
     imgbb_reply := Some "https://i.ibb.co/y/algebra.png" |}.

Definition later_id : string := "000000000000000000000003".

(** The world after one more post to the image host. *)
Definition posted (v : option jsval) (w : world) : world :=
  {| usersCollection := usersCollection w;
     coursesCollection := coursesCollection w;
     imgbb_posts := imgbb_posts w ++ [v] |}.

(** * Properties *)

(** ** The password policy *)

Lemma class_AZ_spec c : class_AZ c = true <-> uppercase c.
Proof.
  unfold class_AZ, uppercase. cbn -[N.leb N_of_ascii].
  rewrite andb_true_iff, !N.leb_le. reflexivity.
Qed.

Lemma class_az_spec c : class_az c = true <-> lowercase c.
Proof.
  unfold class_az, lowercase. cbn -[N.leb N_of_ascii].
  rewrite andb_true_iff, !N.leb_le. reflexivity.
Qed.

Lemma regex_test_spec cls (P : ascii -> Prop) s :
  (forall c, cls c = true <-> P c) ->
  regex_test cls s = true <-> has P s.
Proof.
  intros Hcls. unfold has. induction s as [|a s IH]; simpl.
  - split; [discriminate | intros (c & [] & _)].
  - rewrite orb_true_iff, IH, Hcls. split.
    + intros [Ha | (c & Hin & Hc)]; [exists a | exists c]; auto.
    + intros (c & [<- | Hin] & Hc); [left | right; exists c]; auto.
Qed.

Lemma regex_test_lacks cls (P : ascii -> Prop) s :
  (forall c, cls c = true <-> P c) ->
  ~ has P s -> regex_test cls s = false.
Proof.
  intros Hcls Hno. apply not_true_is_false.
  rewrite (regex_test_spec cls P s Hcls). exact Hno.
Qed.

Ltac unfold_async :=
  unfold try_catch, json, throw, users_findOne, users_insertOne, jwt_sign,
    bcrypt_hash_, bcrypt_compare, courses_find, courses_insertOne,
    courses_updateOne, courses_deleteOne, ObjectId, uploadToImgBB,
    mbind, async_bind, mret, async_ret.

Lemma find_email_None m us :
  List.find (fun u => String.eqb (email u) m) us = None <->
  forall u, u ∈ us -> email u <> m.
Proof.
  induction us as [|v us IH]; simpl.
  - split; [intros _ u Hu; inversion Hu | reflexivity].
  - destruct (String.eqb_spec (email v) m) as [Heq | Hne].
    + split; [discriminate | intros H; destruct (H v); [left | exact Heq]].
    + rewrite IH. split.
      * intros H u Hu. apply elem_of_cons in Hu as [-> | Hu]; auto.
      * intros H u Hu. apply H. right. exact Hu.
Qed.

Lemma find_email_fresh m w :
  ~ stored m w -> List.find (fun u => String.eqb (email u) m) (usersCollection w) = None.
Proof.
  intros Hno. apply find_email_None. intros u Hu Hm. apply Hno. exists u. auto.
Qed.

Lemma filter_email_fresh m w :
  ~ stored m w ->
  List.filter (fun u => String.eqb (email u) m) (usersCollection w) = [].
Proof.
  intros Hfresh. pose proof (proj1 (find_email_None m _) (find_email_fresh m w Hfresh)) as Hall.
  induction (usersCollection w) as [|v us IH]; [reflexivity|]. simpl.
  destruct (String.eqb_spec (email v) m) as [Heq | _].
  - destruct (Hall v); [left | exact Heq].
  - apply IH. intros x Hx. apply Hall. right. exact Hx.
Qed.

Lemma find_email_last m us u :
  (forall v, v ∈ us -> email v <> m) -> email u = m ->
  List.find (fun v => String.eqb (email v) m) (us ++ [u]) = Some u.
Proof.
  intros Hfresh Hu. induction us as [|v us IH]; simpl.
  - rewrite Hu, String.eqb_refl. reflexivity.
  - destruct (String.eqb_spec (email v) m) as [Heq | _].
    + destruct (Hfresh v); [left | exact Heq].
    + apply IH. intros x Hx. apply Hfresh. right. exact Hx.
Qed.

Lemma find_email_Some_or_fresh m w : stored m w \/ ~ stored m w.
Proof.
  destruct (List.find (fun u => String.eqb (email u) m) (usersCollection w)) as [u|] eqn:Hfind.
  - left. apply find_some in Hfind as [Hin Heq]. exists u.
    split; [apply list_elem_of_In; exact Hin | apply String.eqb_eq; exact Heq].
  - right. intros (u & Hu & Hm). exact (proj1 (find_email_None m _) Hfind u Hu Hm).
Qed.

Lemma find_email_Some m us u :
  List.find (fun v => String.eqb (email v) m) us = Some u -> u ∈ us /\ email u = m.
Proof.
  intros H. apply find_some in H as [Hin Heq].
  split; [apply list_elem_of_In; exact Hin | apply String.eqb_eq; exact Heq].
Qed.

Lemma meets_policy_tests pw :
  meets_policy pw <->
  regex_test class_AZ pw = true /\ regex_test class_az pw = true /\
  Nat.ltb (String.length pw) 6 = false.
Proof.
  unfold meets_policy.
  rewrite (regex_test_spec _ _ pw class_AZ_spec), (regex_test_spec _ _ pw class_az_spec).
  rewrite Nat.ltb_ge. reflexivity.
Qed.

(** ** The key of bcrypt *)

(** The key starts with the bytes of the password and the closing NUL. *)
Lemma bcrypt_key_head p :
  length (utf8 p) < 72 ->
  take (S (length (utf8 p))) (bcrypt_key p) = utf8 p ++ [Ascii.zero].
Proof.
  intros Hlen. unfold bcrypt_key. cbv zeta.
  set (data := utf8 p ++ [Ascii.zero]).
  assert (Hdata : length data = S (length (utf8 p))).
  { unfold data. rewrite length_app. simpl. lia. }
  rewrite <- Hdata. apply list_eq. intros i.
  rewrite lookup_take. destruct (decide (i < length data)) as [Hi | Hi].
  - rewrite list_lookup_fmap, lookup_seq_lt by lia. simpl.
    rewrite Nat.mod_small by lia. rewrite nth_lookup.
    destruct (lookup_lt_is_Some_2 data i Hi) as [x Hx]. rewrite Hx. reflexivity.
  - symmetry. apply lookup_ge_None. lia.
Qed.

Lemma terminated_inj (a b : list ascii) k :
  Ascii.zero ∉ a -> Ascii.zero ∉ b ->
  (a ++ [Ascii.zero]) `prefix_of` k -> (b ++ [Ascii.zero]) `prefix_of` k -> a = b.
Proof.
  assert (Hone : forall a b : list ascii, Ascii.zero ∉ b ->
            (a ++ [Ascii.zero]) `prefix_of` (b ++ [Ascii.zero]) -> a = b).
  { clear. intros a b Hb [t Ht]. destruct t as [|x t _] using rev_ind.
    - rewrite app_nil_r in Ht. apply app_inj_tail in Ht as [-> _]. reflexivity.
    - rewrite !app_assoc in Ht. apply app_inj_tail in Ht as [-> _].
      destruct Hb. rewrite <- app_assoc. apply elem_of_app. right. left. }
  intros Ha Hb Hpa Hpb.
  destruct (prefix_weak_total _ _ _ Hpa Hpb) as [H | H].
  - apply Hone; assumption.
  - symmetry. apply Hone; assumption.
Qed.

Lemma bcrypt_key_short_inj p p' :
  fits_key p -> fits_key p' -> bcrypt_key p = bcrypt_key p' -> utf8 p = utf8 p'.
Proof.
  intros [Hl Hz] [Hl' Hz'] Hkey.
  apply (terminated_inj _ _ (bcrypt_key p) Hz Hz').
  - rewrite <- (bcrypt_key_head p Hl). apply prefix_take.
  - rewrite Hkey, <- (bcrypt_key_head p' Hl'). apply prefix_take.
Qed.

Lemma utf8_decode_utf8 s n : String.length s <= n -> utf8_decode n (utf8 s) = s.
Proof.
  revert n. induction s as [|c s IH]; intros n Hn.
  - destruct n; reflexivity.
  - destruct n as [|n]; [simpl in Hn; lia|].
    simpl in Hn. specialize (IH n ltac:(lia)).
    destruct c as [[] [] [] [] [] [] [] []]; simpl; rewrite IH; reflexivity.
Qed.

Lemma utf8_inj s s' : utf8 s = utf8 s' -> s = s'.
Proof.
  intros H.
  pose proof (utf8_decode_utf8 s (String.length s + String.length s') ltac:(lia)) as Hs.
  pose proof (utf8_decode_utf8 s' (String.length s + String.length s') ltac:(lia)) as Hs'.
  rewrite H in Hs. congruence.
Qed.

(** Passwords that fit the key whole have distinct keys. *)
Lemma bcrypt_key_inj p p' :
  fits_key p -> fits_key p' -> bcrypt_key p = bcrypt_key p' -> p = p'.
Proof.
  intros Hp Hp' Hkey. apply utf8_inj. apply bcrypt_key_short_inj; assumption.
Qed.

Section Credentials.

Variable cipher : string -> list ascii -> string.

(** C1: a password without an uppercase letter gets the uppercase error
    whatever else is wrong with it; one with an uppercase but no lowercase
    letter gets the lowercase error whatever its length; one with both and
    fewer than 6 characters gets the length error.  No record is stored in
    any of the three cases. *)
Theorem register_policy_order e name0 email0 photoURL0 pw w :
  (~ has uppercase pw ->
     register cipher e name0 email0 photoURL0 pw w = (uppercase_error, w)) /\
  (has uppercase pw -> ~ has lowercase pw ->
     register cipher e name0 email0 photoURL0 pw w = (lowercase_error, w)) /\
  (has uppercase pw -> has lowercase pw -> String.length pw < 6 ->
     register cipher e name0 email0 photoURL0 pw w = (length_error, w)).
Proof.
  unfold register. repeat split.
  - intros Hno. rewrite (regex_test_lacks _ _ _ class_AZ_spec Hno). reflexivity.
  - intros Hup Hno.
    apply (regex_test_spec _ _ _ class_AZ_spec) in Hup. rewrite Hup.
    rewrite (regex_test_lacks _ _ _ class_az_spec Hno). reflexivity.
  - intros Hup Hlo Hlen.
    apply (regex_test_spec _ _ _ class_AZ_spec) in Hup.
    apply (regex_test_spec _ _ _ class_az_spec) in Hlo.
    apply Nat.ltb_lt in Hlen. rewrite Hup, Hlo, Hlen. reflexivity.
Qed.

(** *** What [register] does past the policy *)

Lemma register_created e n m p pw w :
  meets_policy pw -> ~ stored m w ->
  register cipher e n m p pw w =
    ({| status := 201; body := MessageToken "Registration successful!" (token_for e m) |},
     set_users (usersCollection w ++ [registered cipher e n m p pw]) w).
Proof.
  intros (Hup & Hlo & Hlen)%meets_policy_tests Hfresh%find_email_fresh.
  unfold register. rewrite Hup, Hlo, Hlen. unfold_async. simpl.
  rewrite Hfresh. reflexivity.
Qed.

Lemma register_duplicate e n m p pw w :
  meets_policy pw -> stored m w ->
  register cipher e n m p pw w = (duplicate_user, w).
Proof.
  intros (Hup & Hlo & Hlen)%meets_policy_tests (u & Hu & Hm).
  unfold register. rewrite Hup, Hlo, Hlen. unfold_async. simpl.
  destruct (List.find _ (usersCollection w)) eqn:Hfind; [reflexivity|].
  destruct (proj1 (find_email_None m _) Hfind u Hu Hm).
Qed.

(** A registration answers 201 exactly when the password meets the policy
    and the email is not stored yet. *)
Lemma register_succeeds_iff e n m p pw w :
  status (register cipher e n m p pw w).1 = 201%N <-> meets_policy pw /\ ~ stored m w.
Proof.
  split.
  - rewrite meets_policy_tests. unfold register.
    destruct (regex_test class_AZ pw); [|discriminate].
    destruct (regex_test class_az pw); [|discriminate].
    destruct (Nat.ltb (String.length pw) 6); [discriminate|].
    unfold_async. simpl.
    destruct (List.find _ (usersCollection w)) eqn:Hfind; [discriminate|].
    intros _. repeat split. intros (u & Hu & Hm).
    exact (proj1 (find_email_None m _) Hfind u Hu Hm).
  - intros [Hpol Hfresh]. rewrite register_created by assumption. reflexivity.
Qed.

(** *** Registration, then login *)

Lemma stored_set_users m us w :
  stored m (set_users us w) <-> exists u, u ∈ us /\ email u = m.
Proof. reflexivity. Qed.

(** After a registration, a login under that email compares digests under
    the stored salt. *)
Lemma login_after_register e e' n m p pw pw' w :
  ~ stored m w ->
  let w' := set_users (usersCollection w ++ [registered cipher e n m p pw]) w in
  login cipher e' m pw' w' =
    if String.eqb (cipher (salt e) (bcrypt_key pw')) (cipher (salt e) (bcrypt_key pw))
    then ({| status := 200; body := MessageToken "Login successful!" (token_for e' m) |}, w')
    else (incorrect_password, w').
Proof.
  intros Hfresh w'. unfold login. unfold_async. simpl.
  rewrite (find_email_last m (usersCollection w) (registered cipher e n m p pw)).
  - simpl. destruct (String.eqb _ _); reflexivity.
  - intros v Hv Hm. apply Hfresh. exists v. auto.
  - reflexivity.
Qed.

(** Passwords with the same 72-byte key are not told apart. *)
Lemma login_same_key e e' n m p pw pw' w :
  status (register cipher e n m p pw w).1 = 201%N ->
  bcrypt_key pw' = bcrypt_key pw ->
  let w' := (register cipher e n m p pw w).2 in
  login cipher e' m pw' w' =
    ({| status := 200; body := MessageToken "Login successful!" (token_for e' m) |}, w').
Proof.
  intros [Hpol Hfresh]%register_succeeds_iff Hkey.
  rewrite register_created by assumption. simpl.
  rewrite login_after_register by assumption. rewrite Hkey, String.eqb_refl. reflexivity.
Qed.

(** C2, as amended: after a registration that succeeds, a login with the
    same email and the original password succeeds with a token for that
    email.  A login with another password fails with the incorrect-password
    error when its digest under the stored salt differs from the stored one,
    and succeeds when the two digests are the same, which is the case
    whenever the two passwords have the same 72-byte bcrypt key, for instance
    when they agree on their first 72 bytes.  Neither login changes the
    store.  This holds for every cipher. *)
Theorem register_then_login e e' n m p pw w :
  status (register cipher e n m p pw w).1 = 201%N ->
  let w' := (register cipher e n m p pw w).2 in
  (exists token,
     login cipher e' m pw w' =
       ({| status := 200; body := MessageToken "Login successful!" token |}, w') /\
     jwt_email token = m) /\
  (forall pw', cipher (salt e) (bcrypt_key pw') <> cipher (salt e) (bcrypt_key pw) ->
     login cipher e' m pw' w' = (incorrect_password, w')) /\
  (forall pw', cipher (salt e) (bcrypt_key pw') = cipher (salt e) (bcrypt_key pw) ->
     login cipher e' m pw' w' =
       ({| status := 200; body := MessageToken "Login successful!" (token_for e' m) |}, w')) /\
  (forall pw', bcrypt_key pw' = bcrypt_key pw ->
     login cipher e' m pw' w' =
       ({| status := 200; body := MessageToken "Login successful!" (token_for e' m) |}, w')).
Proof.
  intros Hok w'.
  assert (Hrun : forall pw', login cipher e' m pw' w' =
            if String.eqb (cipher (salt e) (bcrypt_key pw')) (cipher (salt e) (bcrypt_key pw))
            then ({| status := 200;
                     body := MessageToken "Login successful!" (token_for e' m) |}, w')
            else (incorrect_password, w')).
  { intros pw'. subst w'. apply register_succeeds_iff in Hok as [Hpol Hfresh].
    rewrite register_created by assumption. simpl.
    apply login_after_register. exact Hfresh. }
  split; [|split; [|split]].
  - exists (token_for e' m). split; [|reflexivity].
    rewrite Hrun, String.eqb_refl. reflexivity.
  - intros pw' Hne. rewrite Hrun.
    destruct (String.eqb_spec (cipher (salt e) (bcrypt_key pw'))
                (cipher (salt e) (bcrypt_key pw))) as [Heq | _]; [contradiction | reflexivity].
  - intros pw' Heq. rewrite Hrun, Heq, String.eqb_refl. reflexivity.
  - intros pw' Hkey. rewrite Hrun, Hkey, String.eqb_refl. reflexivity.
Qed.

(** *** Registering twice *)

Lemma register_stores e n m p pw w :
  meets_policy pw -> stored m (register cipher e n m p pw w).2.
Proof.
  intros Hpol. destruct (find_email_Some_or_fresh m w) as [Hstored | Hfresh].
  - rewrite register_duplicate by assumption. exact Hstored.
  - rewrite register_created by assumption.
    apply stored_set_users. exists (registered cipher e n m p pw). split; [|reflexivity].
    apply elem_of_app. right. apply list_elem_of_singleton. reflexivity.
Qed.

(** C3: two registrations under one email, each with a password that
    meets the policy.  The first, made while the email is not stored yet,
    answers 201 with the success message and a token and stores one record;
    the second answers the duplicate-user error and leaves the store as the
    first left it, so it inserts no record. *)
Theorem register_twice e1 e2 n1 n2 m p1 p2 pw1 pw2 w :
  meets_policy pw1 -> meets_policy pw2 ->
  let r1 := (register cipher e1 n1 m p1 pw1 w).1 in
  let w1 := (register cipher e1 n1 m p1 pw1 w).2 in
  let r2 := (register cipher e2 n2 m p2 pw2 w1).1 in
  let w2 := (register cipher e2 n2 m p2 pw2 w1).2 in
  (~ stored m w ->
     (exists token,
        r1 = {| status := 201; body := MessageToken "Registration successful!" token |} /\
        jwt_email token = m) /\
     usersCollection w1 = usersCollection w ++ [registered cipher e1 n1 m p1 pw1]) /\
  r2 = duplicate_user /\
  w2 = w1.
Proof.
  intros Hpol1 Hpol2 r1 w1 r2 w2. split.
  - intros Hfresh. subst r1 w1. rewrite register_created by assumption. simpl.
    split; [exists (token_for e1 m); auto | reflexivity].
  - subst r2 w2. rewrite register_duplicate; [split; reflexivity | assumption |].
    apply register_stores. exact Hpol1.
Qed.

(** *** Google login *)

Lemma googleLogin_new e n m p w :
  ~ stored m w ->
  googleLogin e n m p w =
    ({| status := 200; body := MessageToken "Google login successful!" (token_for e m) |},
     set_users (usersCollection w ++ [provisioned n m p]) w).
Proof.
  intros Hfresh%find_email_fresh. unfold googleLogin. unfold_async. simpl.
  rewrite Hfresh. reflexivity.
Qed.

Lemma googleLogin_known e n m p w :
  stored m w ->
  googleLogin e n m p w =
    ({| status := 200; body := MessageToken "Google login successful!" (token_for e m) |}, w).
Proof.
  intros (u & Hu & Hm). unfold googleLogin. unfold_async. simpl.
  destruct (List.find _ (usersCollection w)) eqn:Hfind; [reflexivity|].
  destruct (proj1 (find_email_None m _) Hfind u Hu Hm).
Qed.

(** C4: two Google logins in a row under one email that is not stored
    before: the first appends one record, marked [fromGoogle = true] and
    without a password; the second changes nothing, so the store holds
    exactly that one record for the email; both answer 200 with a token whose
    email claim is the input email. *)
Theorem googleLogin_twice e1 e2 n1 n2 m p1 p2 w :
  ~ stored m w ->
  let r1 := (googleLogin e1 n1 m p1 w).1 in
  let w1 := (googleLogin e1 n1 m p1 w).2 in
  let r2 := (googleLogin e2 n2 m p2 w1).1 in
  let w2 := (googleLogin e2 n2 m p2 w1).2 in
  let u := {| name := n1; email := m; photoURL := p1;
              password := None; fromGoogle := Some true |} in
  usersCollection w1 = usersCollection w ++ [u] /\
  w2 = w1 /\
  List.filter (fun v => String.eqb (email v) m) (usersCollection w2) = [u] /\
  (exists t1 t2,
     r1 = {| status := 200; body := MessageToken "Google login successful!" t1 |} /\
     r2 = {| status := 200; body := MessageToken "Google login successful!" t2 |} /\
     jwt_email t1 = m /\ jwt_email t2 = m).
Proof.
  intros Hfresh r1 w1 r2 w2 u. subst r1 w1 r2 w2.
  rewrite googleLogin_new by assumption. simpl.
  rewrite googleLogin_known.
  - simpl. repeat split.
    + rewrite List.filter_app, (filter_email_fresh m w Hfresh). simpl.
      rewrite String.eqb_refl. reflexivity.
    + exists (token_for e1 m), (token_for e2 m). auto.
  - apply stored_set_users. exists (provisioned n1 m p1). split; [|reflexivity].
    apply elem_of_app. right. apply list_elem_of_singleton. reflexivity.
Qed.

(** *** The users are only ever extended, by an email that is new *)

Lemma register_users_step e n m p pw w :
  users_step w (register cipher e n m p pw w).2.
Proof.
  unfold register.
  destruct (regex_test class_AZ pw); [|by left].
  destruct (regex_test class_az pw); [|by left].
  destruct (Nat.ltb (String.length pw) 6); [by left|].
  unfold_async. simpl.
  destruct (List.find _ (usersCollection w)) eqn:Hfind; [by left|].
  right with (registered cipher e n m p pw); [reflexivity|].
  intros (u & Hu & Hm). exact (proj1 (find_email_None m _) Hfind u Hu Hm).
Qed.

Lemma login_users_step e m pw w : users_step w (login cipher e m pw w).2.
Proof.
  unfold login. unfold_async. simpl.
  destruct (List.find _ (usersCollection w)) as [u|]; [|by left].
  destruct (password u); simpl; [|by left].
  destruct (String.eqb _ _); by left.
Qed.

Lemma googleLogin_users_step e n m p w : users_step w (googleLogin e n m p w).2.
Proof.
  unfold googleLogin. unfold_async. simpl.
  destruct (List.find _ (usersCollection w)) eqn:Hfind; [by left|].
  right with (provisioned n m p); [reflexivity|].
  intros (u & Hu & Hm). exact (proj1 (find_email_None m _) Hfind u Hu Hm).
Qed.

Lemma listCourses_world c w : (listCourses c w).2 = w.
Proof. reflexivity. Qed.

Lemma createCourse_users e b w :
  usersCollection (createCourse e b w).2 = usersCollection w.
Proof.
  unfold createCourse. cbv zeta.
  destruct (_ || _); [reflexivity|].
  unfold_async. simpl.
  destruct (imgbb_reply e); [|reflexivity].
  destruct (List.existsb _ _); reflexivity.
Qed.

(** The three ways an update ends. *)
Lemma updateCourse_cases id b w :
  updateCourse id b w = (server_error, w) \/
  updateCourse id b w = (updated_ok, w) \/
  exists o c,
    parse_ObjectId id = Some o /\
    List.find (has_id o) (coursesCollection w) = Some c /\
    set_parses b = true /\ set_refused b (fields c) = false /\
    updateCourse id b w =
      (updated_ok, set_courses (update_first o (apply_set b) (coursesCollection w)) w).
Proof.
  unfold updateCourse. unfold_async.
  destruct (parse_ObjectId id) as [o|]; [|left; reflexivity].
  destruct (set_parses b); [|left; reflexivity].
  destruct (List.find _ _) as [c|] eqn:Hfind; [|right; left; reflexivity].
  destruct (set_refused b (fields c)) eqn:Hrefused; [left; reflexivity|].
  right. right. exists o, c. auto.
Qed.

Lemma updateCourse_users id b w :
  usersCollection (updateCourse id b w).2 = usersCollection w.
Proof.
  destruct (updateCourse_cases id b w) as [H | [H | (o & c & _ & _ & _ & _ & H)]];
    rewrite H; reflexivity.
Qed.

Lemma deleteCourse_users id w :
  usersCollection (deleteCourse id w).2 = usersCollection w.
Proof.
  unfold deleteCourse. unfold_async.
  destruct (parse_ObjectId id); reflexivity.
Qed.

(** Every route, on the users. *)
Lemma app_users_step e r w : users_step w (app cipher e r w).2.
Proof.
  destruct r; simpl.
  - apply register_users_step.
  - apply login_users_step.
  - apply googleLogin_users_step.
  - left. reflexivity.
  - left. apply createCourse_users.
  - left. apply updateCourse_users.
  - left. apply deleteCourse_users.
  - left. reflexivity.
Qed.

Lemma users_step_unique w w' :
  users_step w w' -> unique_emails w -> unique_emails w'.
Proof.
  unfold unique_emails. intros [Hsame | u Hadd Hfresh] Huniq.
  - rewrite Hsame. exact Huniq.
  - rewrite Hadd, map_app. apply NoDup_app. split; [exact Huniq|]. split.
    + intros x Hx Hu. apply list_elem_of_singleton in Hu as ->.
      apply list_elem_of_fmap in Hx as (v & Hv & Hin). apply Hfresh. exists v. auto.
    + apply NoDup_singleton.
Qed.

Lemma users_step_prefix w w' :
  users_step w w' -> usersCollection w `prefix_of` usersCollection w'.
Proof.
  intros [Hsame | u Hadd _].
  - rewrite Hsame. reflexivity.
  - rewrite Hadd. apply prefix_app_r. reflexivity.
Qed.

(** C5: served one after the other from a store with at most one record
    per email, the routes (registration, login, Google login, and the four
    course routes) keep at most one record per email; and the records held
    at the start stay as they are, in place, at the head of the collection:
    none is updated or deleted. *)
Theorem users_invariant rs w :
  unique_emails w ->
  unique_emails (serve cipher rs w) /\
  usersCollection w `prefix_of` usersCollection (serve cipher rs w).
Proof.
  revert w. induction rs as [|[e r] rs IH]; intros w Huniq; simpl.
  - split; [exact Huniq | reflexivity].
  - pose proof (app_users_step e r w) as Hstep.
    destruct (IH _ (users_step_unique _ _ Hstep Huniq)) as [Hu Hp].
    split; [exact Hu|].
    etrans; [apply users_step_prefix; exact Hstep | exact Hp].
Qed.

End Credentials.

(** The password ["abc"] has no uppercase letter and is too short as well:
    the uppercase error wins. *)
Lemma register_policy_order_witness :
  register plain_cipher sample_env None "ada@example.org" None "abc" empty_world
  = (uppercase_error, empty_world).
Proof.
  apply (proj1 (register_policy_order plain_cipher sample_env None "ada@example.org" None
                  "abc" empty_world)).
  intros (c & Hin & Hc). unfold uppercase in Hc. simpl in Hin, Hc.
  destruct Hin as [<- | [<- | [<- | []]]]; simpl in Hc; lia.
Defined.

(** ** The course catalog *)

Lemma matches_category cat c : matches (Some cat) c = true <-> category_is cat c.
Proof.
  unfold matches, category_is.
  destruct (fields c !! "category") as [[| | |s|]|]; try (split; [discriminate | congruence]).
  rewrite String.eqb_eq. split; [intros ->; reflexivity | congruence].
Qed.

Lemma filter_matches_category cat cs :
  List.filter (matches (Some cat)) cs = filter (category_is cat) cs.
Proof.
  induction cs as [|c cs IH]; [reflexivity|]. cbn [List.filter]. rewrite filter_cons.
  destruct (decide (category_is cat c)) as [Hc | Hc].
  - apply matches_category in Hc. rewrite Hc, IH. reflexivity.
  - destruct (matches (Some cat) c) eqn:Hm; [|exact IH].
    apply matches_category in Hm. contradiction.
Qed.

Lemma filter_matches_all cs : List.filter (matches None) cs = cs.
Proof. induction cs as [|c cs IH]; simpl; congruence. Qed.

(** C6, as amended: with a category filter other than the empty string,
    [listCourses] answers exactly the records whose category is that string,
    in the order of the collection; with no filter, and with the empty
    string as filter, it answers all records.  The store is not changed. *)
Theorem listCourses_filter w :
  (forall cat, cat <> "" ->
     listCourses (Some cat) w =
       ({| status := 200; body := Courses (filter (category_is cat) (coursesCollection w)) |}, w)) /\
  listCourses None w = ({| status := 200; body := Courses (coursesCollection w) |}, w) /\
  listCourses (Some "") w = ({| status := 200; body := Courses (coursesCollection w) |}, w).
Proof.
  unfold listCourses. unfold_async. simpl. repeat split.
  - intros cat Hcat. destruct (String.eqb_spec cat "") as [-> | _]; [contradiction|].
    simpl. rewrite filter_matches_category. reflexivity.
  - rewrite filter_matches_all. reflexivity.
  - rewrite filter_matches_all. reflexivity.
Qed.

(** The example of the specification: over the two courses of [catalog],
    the filter ["math"] yields exactly the first. *)
Lemma listCourses_filter_witness :
  listCourses (Some "math") catalog =
    ({| status := 200; body := Courses [math_course] |}, catalog).
Proof.
  rewrite (proj1 (listCourses_filter catalog) "math"); [reflexivity | discriminate].
Defined.

(** C6 fails as stated: the empty string is a supplied filter, no course of
    [catalog] has the empty string as category, and yet both are
    answered. *)
Lemma listCourses_empty_filter :
  listCourses (Some "") catalog =
    ({| status := 200; body := Courses [math_course; art_course] |}, catalog) /\
  ~ category_is "" math_course /\ ~ category_is "" art_course.
Proof. repeat split; discriminate. Qed.

(** *** Creation *)

Lemma createCourse_falsy e b w k :
  k ∈ required -> truthy (b !! k) = false -> createCourse e b w = (missing_fields, w).
Proof.
  intros Hk Hfalsy. unfold createCourse, required in *. cbv zeta.
  repeat (apply elem_of_cons in Hk as [-> | Hk]);
    [rewrite Hfalsy; simpl; rewrite ?orb_true_r; reflexivity .. | inversion Hk].
Qed.

(** C7: when one of the six properties is absent from the body,
    [createCourse] answers the missing-fields error and leaves the world as
    it was: nothing is posted to the image host and nothing is written to
    the store. *)
Theorem createCourse_missing e b w :
  (exists k, k ∈ required /\ b !! k = None) ->
  createCourse e b w = (missing_fields, w).
Proof.
  intros (k & Hk & Habsent). apply (createCourse_falsy e b w k Hk).
  rewrite Habsent. reflexivity.
Qed.

Lemma createCourse_missing_witness :
  createCourse sample_env (delete "price" free_course_body) empty_world
  = (missing_fields, empty_world).
Proof.
  apply createCourse_missing. exists "price". split.
  - unfold required. set_solver.
  - apply lookup_delete_eq.
Defined.

(** C10: presence is tested by truthiness.  A body whose price is the
    number 0, and a body one of whose six properties is the empty string, is
    answered with the missing-fields error, with nothing posted and nothing
    written; [free_course_body] is such a body with all six properties
    present. *)
Theorem createCourse_present_but_falsy :
  (forall e b w, b !! "price" = Some (JNum 0) -> createCourse e b w = (missing_fields, w)) /\
  (forall e b w k, k ∈ required -> b !! k = Some (JStr "") ->
     createCourse e b w = (missing_fields, w)) /\
  (exists b, (forall k, k ∈ required -> is_Some (b !! k)) /\
     forall e w, createCourse e b w = (missing_fields, w)).
Proof.
  repeat split.
  - intros e b w Hprice. apply (createCourse_falsy e b w "price").
    + unfold required. set_solver.
    + rewrite Hprice. reflexivity.
  - intros e b w k Hk Hempty. apply (createCourse_falsy e b w k Hk).
    rewrite Hempty. reflexivity.
  - exists free_course_body. split.
    + intros k Hk. unfold required in Hk.
      repeat (apply elem_of_cons in Hk as [-> | Hk]); [eexists; reflexivity .. | inversion Hk].
    + intros e w. apply (createCourse_falsy e _ w "price").
      * unfold required. set_solver.
      * reflexivity.
Qed.

(** *** Update and deletion *)

(** *** Paths *)

Lemma covered_spec set q :
  covered set q = true <-> exists p v, set !! p = Some v /\ below p q = true.
Proof. unfold covered. rewrite bool_decide_eq_true. apply map_Exists_lookup. Qed.

Lemma covered_false set q :
  covered set q = false <-> forall p v, set !! p = Some v -> below p q = false.
Proof.
  rewrite <- not_true_iff_false, covered_spec. split.
  - intros Hno p v Hp. apply not_true_iff_false. intros Hb. apply Hno. eauto.
  - intros Hall (p & v & Hp & Hb). rewrite (Hall p v Hp) in Hb. discriminate.
Qed.

(** What a record holds at a path after [$set]. *)
Lemma lookup_apply_set set c k :
  fields (apply_set set c) !! k =
    match set !! k with
    | Some v => Some v
    | None => if covered set k then None else fields c !! k
    end.
Proof.
  unfold apply_set. cbn [fields]. set (d := fields c). rewrite lookup_union. destruct (set !! k) as [v|] eqn:Hk.
  - destruct (filter _ d !! k); reflexivity.
  - rewrite (left_id_L None _). destruct (covered set k) eqn:Hc.
    + apply map_lookup_filter_None. right. intros x _. simpl. rewrite Hc. discriminate.
    + destruct (d !! k) as [x|] eqn:Hd.
      * apply map_lookup_filter_Some. split; [exact Hd | exact Hc].
      * apply map_lookup_filter_None. left. exact Hd.
Qed.

Lemma split_dots_cons s : exists h t, split_dots s = h :: t.
Proof.
  induction s as [|c s (h & t & IH)]; simpl; [eauto|].
  destruct (Ascii.eqb c "."); [eauto|]. rewrite IH. eauto.
Qed.

Lemma split_dots_plain k : mentions "." k = false -> split_dots k = [k].
Proof.
  induction k as [|c k IH]; simpl; [reflexivity|].
  rewrite Ascii.eqb_sym. intros [Hc Hk]%orb_false_iff.
  rewrite Ascii.eqb_sym in Hc. rewrite Ascii.eqb_sym, Hc, (IH Hk). reflexivity.
Qed.

Lemma split_dots_single q h : split_dots q = [h] -> q = h.
Proof.
  revert h. induction q as [|c q IH]; intros h; simpl.
  - intros [= <-]. reflexivity.
  - destruct (Ascii.eqb c ".").
    + destruct (split_dots_cons q) as (h' & t' & Hq). rewrite Hq. discriminate.
    + destruct (split_dots q) as [|h' t'] eqn:Hq.
      * destruct (split_dots_cons q) as (x & y & Hx). congruence.
      * intros [= <- ->]. f_equal. apply IH. reflexivity.
Qed.

Lemma strictly_under_single p q : strictly_under p [q] = true -> p = [].
Proof.
  destruct p as [|x [|y p]]; simpl; [reflexivity | |].
  - rewrite andb_false_r. discriminate.
  - rewrite andb_false_r. discriminate.
Qed.

Lemma below_plain p k : mentions "." k = false -> below p k = false.
Proof.
  intros Hk. unfold below. rewrite (split_dots_plain k Hk).
  apply not_true_iff_false. intros H%strictly_under_single.
  destruct (split_dots_cons p) as (h & t & Hp). congruence.
Qed.

Lemma plain_name_spec k :
  plain_name k = true ->
  valid_name k = true /\ mentions "." k = false /\ k <> "_id".
Proof.
  unfold plain_name. intros [[H1 H2]%andb_true_iff H3]%andb_true_iff.
  apply negb_true_iff in H2, H3. apply String.eqb_neq in H3. auto.
Qed.

Lemma plain_not_covered (set : gmap string jsval) k : plain_name k = true -> covered set k = false.
Proof.
  intros (_ & Hk & _)%plain_name_spec. apply covered_false. intros p v _.
  apply below_plain. exact Hk.
Qed.

Lemma plain_set_parses b : plain_set b -> set_parses b = true.
Proof.
  intros Hb. unfold set_parses. apply bool_decide_eq_true. intros k v Hk.
  pose proof (Hb k v Hk) as Hplain. simpl in Hplain.
  destruct (plain_name_spec k Hplain) as (Hv & Hd & _). split.
  - rewrite (split_dots_plain k Hd). simpl. rewrite Hv. reflexivity.
  - apply plain_not_covered. exact Hplain.
Qed.

Lemma plain_set_accepted b d : plain_set b -> set_refused b d = false.
Proof.
  intros Hb. unfold set_refused. apply bool_decide_eq_false.
  intros (k & v & Hk & Hbad)%map_Exists_lookup.
  pose proof (Hb k v Hk) as Hplain. simpl in Hplain.
  destruct (plain_name_spec k Hplain) as (_ & Hd & Hid). destruct Hbad as [H | H].
  - rewrite (split_dots_plain k Hd) in H. simpl in H. contradiction.
  - rewrite (plain_not_covered d k Hplain) in H. discriminate.
Qed.

Lemma covered_plain b q :
  plain_set b ->
  covered b q = match b !! field_of q with
                | Some _ => negb (String.eqb q (field_of q))
                | None => false
                end.
Proof.
  intros Hb. unfold field_of.
  destruct (split_dots_cons q) as (h & t & Hq). rewrite Hq. simpl.
  destruct (b !! h) as [v|] eqn:Hh.
  - pose proof (Hb h v Hh) as Hplain. simpl in Hplain.
    destruct (plain_name_spec h Hplain) as (_ & Hd & _).
    destruct t as [|x t].
    + rewrite (split_dots_single q h Hq), String.eqb_refl. simpl.
      apply covered_false. intros p w _. apply below_plain. exact Hd.
    + replace (String.eqb q h) with false.
      * simpl. apply covered_spec. exists h, v. split; [exact Hh|].
        unfold below. rewrite (split_dots_plain h Hd), Hq. simpl.
        rewrite String.eqb_refl. reflexivity.
      * symmetry. apply String.eqb_neq. intros ->.
        rewrite (split_dots_plain h Hd) in Hq. discriminate.
  - apply covered_false. intros p v Hp.
    pose proof (Hb p v Hp) as Hplain. simpl in Hplain.
    destruct (plain_name_spec p Hplain) as (_ & Hd & _).
    unfold below. rewrite (split_dots_plain p Hd), Hq. simpl.
    destruct (String.eqb_spec p h) as [-> | _]; [congruence | reflexivity].
Qed.

Lemma course_eq (c1 c2 : course) :
  _id c1 = _id c2 -> (forall k, fields c1 !! k = fields c2 !! k) -> c1 = c2.
Proof.
  destruct c1 as [i1 f1], c2 as [i2 f2]. simpl. intros -> H. f_equal.
  apply map_eq. exact H.
Qed.

Lemma apply_set_idemp set c : apply_set set (apply_set set c) = apply_set set c.
Proof.
  apply course_eq; [reflexivity|]. intros k. rewrite !lookup_apply_set.
  destruct (set !! k); [reflexivity|]. destruct (covered set k); reflexivity.
Qed.

(** A [$set] that a record has taken is not refused by the record it
    leaves. *)
Lemma refused_after_apply set c :
  set_parses set = true -> set_refused set (fields c) = false ->
  set_refused set (fields (apply_set set c)) = false.
Proof.
  unfold set_parses, set_refused.
  rewrite bool_decide_eq_true, !bool_decide_eq_false. intros Hparse Hok.
  intros (p & v & Hp & Hbad)%map_Exists_lookup. apply Hok. apply map_Exists_lookup.
  exists p, v. split; [exact Hp|]. destruct Hbad as [H | H]; [left; exact H|]. right.
  apply covered_spec in H as (q & x & Hq & Hbelow). apply covered_spec.
  rewrite lookup_apply_set in Hq. destruct (set !! q) as [y|] eqn:Hsq.
  - destruct (Hparse p v Hp) as [_ Hfree]. simpl in Hfree.
    rewrite (proj1 (covered_false _ _) Hfree q y Hsq) in Hbelow. discriminate.
  - destruct (covered set q); [discriminate|]. eauto.
Qed.

Lemma has_id_spec o c : has_id o c = true <-> _id c = o.
Proof. unfold has_id. apply N.eqb_eq. Qed.

Lemma has_id_false o c : has_id o c = false <-> _id c <> o.
Proof. unfold has_id. apply N.eqb_neq. Qed.

Lemma find_id_None o cs :
  List.find (has_id o) cs = None <-> forall c, c ∈ cs -> _id c <> o.
Proof.
  induction cs as [|c cs IH]; simpl.
  - split; [intros _ x Hx; inversion Hx | reflexivity].
  - destruct (has_id o c) eqn:Hc.
    + apply has_id_spec in Hc.
      split; [discriminate | intros H; destruct (H c); [left | exact Hc]].
    + apply has_id_false in Hc. rewrite IH. split.
      * intros H x Hx. apply elem_of_cons in Hx as [-> | Hx]; auto.
      * intros H x Hx. apply H. right. exact Hx.
Qed.

Lemma update_first_absent o f cs :
  (forall c, c ∈ cs -> _id c <> o) -> update_first o f cs = cs.
Proof.
  induction cs as [|c cs IH]; intros Hno; [reflexivity|]. simpl.
  destruct (has_id o c) eqn:Hc.
  - apply has_id_spec in Hc. destruct (Hno c); [left | exact Hc].
  - rewrite IH; [reflexivity|]. intros x Hx. apply Hno. right. exact Hx.
Qed.

Lemma update_first_length o f cs : length (update_first o f cs) = length cs.
Proof.
  induction cs as [|c cs IH]; [reflexivity|]. simpl.
  destruct (has_id o c); simpl; congruence.
Qed.

(** With identifiers that are unique, the record updated is the record
    with the identifier, wherever it stands. *)
Lemma update_first_lookup o f cs i c :
  NoDup (map _id cs) -> cs !! i = Some c ->
  update_first o f cs !! i = Some (if decide (_id c = o) then f c else c).
Proof.
  revert i. induction cs as [|c0 cs IH]; intros i Huniq Hi; [inversion Hi|].
  simpl in Huniq. apply NoDup_cons in Huniq as [Hfresh Huniq]. simpl.
  destruct (has_id o c0) eqn:Hc0.
  - apply has_id_spec in Hc0. destruct i as [|i]; simpl in *.
    + injection Hi as <-. rewrite decide_True by assumption. reflexivity.
    + rewrite Hi. rewrite decide_False; [reflexivity|].
      intros Hc. apply Hfresh. rewrite Hc0, <- Hc.
      apply list_elem_of_fmap. exists c. split; [reflexivity|].
      apply list_elem_of_lookup. exists i. exact Hi.
  - apply has_id_false in Hc0. destruct i as [|i]; simpl in *.
    + injection Hi as <-. rewrite decide_False by assumption. reflexivity.
    + apply IH; assumption.
Qed.

Lemma delete_first_filter o cs :
  NoDup (map _id cs) -> delete_first o cs = filter (fun c => _id c <> o) cs.
Proof.
  induction cs as [|c cs IH]; intros Huniq; [reflexivity|].
  simpl in Huniq. apply NoDup_cons in Huniq as [Hfresh Huniq].
  simpl. rewrite filter_cons. destruct (has_id o c) eqn:Hc.
  - apply has_id_spec in Hc. rewrite decide_False by (intros H; exact (H Hc)).
    clear IH. symmetry. induction cs as [|x cs IHcs]; [reflexivity|].
    simpl in *. apply NoDup_cons in Huniq as [_ Huniq]. rewrite filter_cons.
    rewrite decide_True.
    + f_equal. apply IHcs; [|exact Huniq].
      intros Hin. apply Hfresh. right. exact Hin.
    + intros Hx. apply Hfresh. apply elem_of_cons. left. congruence.
  - apply has_id_false in Hc. rewrite decide_True by assumption.
    rewrite IH by assumption. reflexivity.
Qed.

Lemma delete_first_absent o cs :
  (forall c, c ∈ cs -> _id c <> o) -> delete_first o cs = cs.
Proof.
  induction cs as [|c cs IH]; intros Hno; [reflexivity|]. simpl.
  destruct (has_id o c) eqn:Hc.
  - apply has_id_spec in Hc. destruct (Hno c); [left | exact Hc].
  - rewrite IH; [reflexivity|]. intros x Hx. apply Hno. right. exact Hx.
Qed.

Lemma set_courses_same w : set_courses (coursesCollection w) w = w.
Proof. destruct w. reflexivity. Qed.

Lemma field_of_plain k : mentions "." k = false -> field_of k = k.
Proof. intros Hk. unfold field_of. rewrite (split_dots_plain k Hk). reflexivity. Qed.

Lemma plain_set_lookup b k v : plain_set b -> b !! k = Some v -> field_of k = k.
Proof.
  intros Hb Hk. apply field_of_plain.
  apply (plain_name_spec k (Hb k v Hk)).
Qed.

(** What a record holds at a path after a [$set] of plainly named
    fields. *)
Lemma lookup_apply_plain b c q :
  plain_set b ->
  fields (apply_set b c) !! q =
    match b !! field_of q with
    | Some v => if String.eqb q (field_of q) then Some v else None
    | None => fields c !! q
    end.
Proof.
  intros Hb. rewrite lookup_apply_set, (covered_plain b q Hb).
  destruct (b !! q) as [x|] eqn:Hq.
  - rewrite (plain_set_lookup b q x Hb Hq), Hq, String.eqb_refl. reflexivity.
  - destruct (b !! field_of q) as [v|] eqn:Hf; [|reflexivity].
    destruct (String.eqb_spec q (field_of q)) as [Heq | _]; [|reflexivity].
    rewrite <- Heq in Hf. congruence.
Qed.

(** C8, as amended: for an identifier that is well formed and fields to
    set that are plainly named (fields of the record itself, other than
    [_id]), [updateCourse] answers success; on the record with the identifier
    each listed field takes the listed value, in place of whatever the record
    held in that field, and every other field keeps what it holds; every
    other record, the users and the image host are untouched; and when no
    record has the identifier the world is unchanged. *)
Theorem updateCourse_sets id o b w :
  parse_ObjectId id = Some o -> plain_set b -> unique_ids w ->
  let r := (updateCourse id b w).1 in
  let w' := (updateCourse id b w).2 in
  r = updated_ok /\
  usersCollection w' = usersCollection w /\
  imgbb_posts w' = imgbb_posts w /\
  length (coursesCollection w') = length (coursesCollection w) /\
  (forall i c, coursesCollection w !! i = Some c ->
     exists c', coursesCollection w' !! i = Some c' /\ _id c' = _id c /\
       if decide (_id c = o)
       then
         (forall k, mentions "." k = false ->
            fields c' !! k = match b !! k with Some v => Some v | None => fields c !! k end) /\
         (forall q, fields c' !! q =
            match b !! field_of q with
            | Some v => if String.eqb q (field_of q) then Some v else None
            | None => fields c !! q
            end)
       else c' = c) /\
  ((forall c, c ∈ coursesCollection w -> _id c <> o) -> w' = w).
Proof.
  intros Hid Hb Huniq r w'. subst r w'.
  unfold updateCourse. unfold_async. rewrite Hid, (plain_set_parses b Hb).
  destruct (List.find (has_id o) (coursesCollection w)) as [found|] eqn:Hfind.
  - rewrite (plain_set_accepted b (fields found) Hb). simpl.
    split; [reflexivity|]. split; [reflexivity|]. split; [reflexivity|].
    split; [apply update_first_length|]. split.
    + intros i c Hi.
      exists (if decide (_id c = o) then apply_set b c else c). split.
      * apply update_first_lookup; assumption.
      * destruct (decide (_id c = o)); split; try reflexivity. split.
        -- intros k Hk. rewrite (lookup_apply_plain b c k Hb), (field_of_plain k Hk).
           rewrite String.eqb_refl. reflexivity.
        -- intros q. apply lookup_apply_plain. exact Hb.
    + intros Hno. rewrite update_first_absent by assumption. apply set_courses_same.
  - simpl. split; [reflexivity|]. split; [reflexivity|]. split; [reflexivity|].
    split; [reflexivity|]. split; [|reflexivity].
    intros i c Hi. exists c. split; [exact Hi|]. split; [reflexivity|].
    rewrite decide_False; [reflexivity|].
    apply (proj1 (find_id_None o _) Hfind). apply list_elem_of_lookup. exists i. exact Hi.
Qed.

Lemma catalog_unique_ids : unique_ids catalog.
Proof.
  unfold unique_ids. simpl. apply NoDup_cons. split; [|apply NoDup_singleton].
  intros H. apply list_elem_of_singleton in H. discriminate.
Qed.

(** Retitling the first course of [catalog]. *)
Lemma updateCourse_sets_witness :
  (updateCourse math_id {[ "title" := JStr "Logic" ]} catalog).1 = updated_ok /\
  coursesCollection (updateCourse math_id {[ "title" := JStr "Logic" ]} catalog).2 !! 1%nat
    = Some art_course.
Proof.
  assert (Hb : plain_set ({[ "title" := JStr "Logic" ]} : gmap string jsval))
    by (apply map_Forall_singleton; reflexivity).
  destruct (updateCourse_sets math_id 1%N {[ "title" := JStr "Logic" ]} catalog
              eq_refl Hb catalog_unique_ids) as (Hr & _ & _ & _ & Hrec & _).
  split; [exact Hr|].
  destruct (Hrec 1 art_course eq_refl) as (c' & Hc' & _ & Hsame).
  rewrite Hc'. f_equal. exact Hsame.
Defined.

(** C8 fails as stated, three times.  No record of [catalog] has the
    identifier ["nope"], and the update is answered with the server error,
    not with success.  An update of the first course that lists [_id] next to
    [title] is refused as a whole: the listed title is not set.  And so is an
    update that lists the path ["category.x"], which leads through the string
    the record holds as category. *)
Lemma updateCourse_refused :
  updateCourse "nope" {[ "title" := JStr "Logic" ]} catalog = (server_error, catalog) /\
  updateCourse math_id (<[ "_id" := JStr "7" ]> {[ "title" := JStr "Logic" ]}) catalog
    = (server_error, catalog) /\
  updateCourse math_id (<[ "category.x" := JStr "y" ]> {[ "title" := JStr "Logic" ]}) catalog
    = (server_error, catalog).
Proof. repeat split; vm_compute; reflexivity. Qed.

(** C9, as amended: for an identifier that is well formed, [deleteCourse]
    answers success and the courses become the courses without the record
    that has the identifier, all others in place and unchanged, the users
    and the image host untouched; a second call with the same identifier
    answers success again and changes nothing. *)
Theorem deleteCourse_removes id o w :
  parse_ObjectId id = Some o -> unique_ids w ->
  let r1 := (deleteCourse id w).1 in
  let w1 := (deleteCourse id w).2 in
  let r2 := (deleteCourse id w1).1 in
  let w2 := (deleteCourse id w1).2 in
  r1 = deleted_ok /\
  coursesCollection w1 = filter (fun c => _id c <> o) (coursesCollection w) /\
  usersCollection w1 = usersCollection w /\
  imgbb_posts w1 = imgbb_posts w /\
  r2 = deleted_ok /\
  w2 = w1.
Proof.
  intros Hid Huniq r1 w1 r2 w2. subst r1 w1 r2 w2.
  unfold deleteCourse. unfold_async. rewrite Hid. simpl.
  rewrite delete_first_filter by assumption. repeat split.
  rewrite delete_first_absent.
  - unfold set_courses. reflexivity.
  - intros c Hc. apply list_elem_of_filter in Hc as [Hne _]. exact Hne.
Qed.

(** Deleting the first course of [catalog], twice. *)
Lemma deleteCourse_removes_witness :
  coursesCollection (deleteCourse math_id catalog).2 = [art_course] /\
  deleteCourse math_id (deleteCourse math_id catalog).2
    = (deleted_ok, (deleteCourse math_id catalog).2).
Proof.
  destruct (deleteCourse_removes math_id 1%N catalog eq_refl catalog_unique_ids)
    as (_ & Hcs & _ & _ & Hr2 & Hw2).
  split.
  - rewrite Hcs. reflexivity.
  - apply injective_projections; [exact Hr2 | exact Hw2].
Defined.

(** C9 fails as stated: with the identifier ["nope"] the second call, like
    the first, is answered with the server error. *)
Lemma deleteCourse_refused :
  deleteCourse "nope" catalog = (server_error, catalog) /\
  deleteCourse "nope" (deleteCourse "nope" catalog).2 = (server_error, catalog).
Proof. split; vm_compute; reflexivity. Qed.

(** *** The identifiers of the courses stay unique *)

Lemma existsb_has_id_false o cs :
  List.existsb (has_id o) cs = false -> o ∉ map _id cs.
Proof.
  intros Hex Hin. apply list_elem_of_fmap in Hin as (c & -> & Hc).
  apply not_true_iff_false in Hex. apply Hex. apply existsb_exists.
  exists c. split; [apply list_elem_of_In; exact Hc | apply has_id_spec; reflexivity].
Qed.

Lemma update_first_ids o b cs : map _id (update_first o (apply_set b) cs) = map _id cs.
Proof.
  induction cs as [|c cs IH]; [reflexivity|]. simpl.
  destruct (has_id o c); simpl; congruence.
Qed.

Lemma createCourse_unique_ids e b w : unique_ids w -> unique_ids (createCourse e b w).2.
Proof.
  intros Huniq. unfold createCourse. cbv zeta.
  destruct (_ || _); [exact Huniq|].
  unfold_async. simpl.
  destruct (imgbb_reply e); [|exact Huniq].
  destruct (List.existsb _ _) eqn:Hex; [exact Huniq|].
  unfold unique_ids. simpl. rewrite map_app. apply NoDup_app.
  split; [exact Huniq|]. split; [|apply NoDup_singleton].
  intros x Hx Hnew. apply list_elem_of_singleton in Hnew as ->.
  exact (existsb_has_id_false _ _ Hex Hx).
Qed.

Lemma updateCourse_unique_ids id b w : unique_ids w -> unique_ids (updateCourse id b w).2.
Proof.
  intros Huniq.
  destruct (updateCourse_cases id b w) as [H | [H | (o & c & _ & _ & _ & _ & H)]];
    rewrite H; [exact Huniq | exact Huniq |].
  unfold unique_ids. simpl. rewrite update_first_ids. exact Huniq.
Qed.

Lemma deleteCourse_unique_ids id w : unique_ids w -> unique_ids (deleteCourse id w).2.
Proof.
  intros Huniq. unfold deleteCourse. unfold_async.
  destruct (parse_ObjectId id) as [o|]; [|exact Huniq].
  unfold unique_ids. simpl. rewrite delete_first_filter by exact Huniq.
  unfold unique_ids in Huniq.
  induction (coursesCollection w) as [|c cs IH]; [exact Huniq|].
  simpl in Huniq. apply NoDup_cons in Huniq as [Hfresh Huniq].
  rewrite filter_cons. destruct (decide (_id c <> o)); [|auto].
  simpl. apply NoDup_cons. split; [|auto].
  intros Hin. apply Hfresh.
  apply list_elem_of_fmap in Hin as (x & Hx & Hin). apply list_elem_of_filter in Hin as [_ Hin].
  apply list_elem_of_fmap. exists x. auto.
Qed.

(** Every route keeps the identifiers of the courses unique. *)
Lemma app_unique_ids cipher e r w : unique_ids w -> unique_ids (app cipher e r w).2.
Proof.
  intros Huniq. destruct r; simpl.
  - unfold register.
    destruct (regex_test class_AZ password0); [|exact Huniq].
    destruct (regex_test class_az password0); [|exact Huniq].
    destruct (Nat.ltb _ _); [exact Huniq|].
    unfold_async. simpl. destruct (List.find _ _); exact Huniq.
  - unfold login. unfold_async. simpl.
    destruct (List.find _ _) as [u|]; [|exact Huniq].
    destruct (password u); simpl; [|exact Huniq].
    destruct (String.eqb _ _); exact Huniq.
  - unfold googleLogin. unfold_async. simpl. destruct (List.find _ _); exact Huniq.
  - exact Huniq.
  - apply createCourse_unique_ids. exact Huniq.
  - apply updateCourse_unique_ids. exact Huniq.
  - apply deleteCourse_unique_ids. exact Huniq.
  - exact Huniq.
Qed.

(** Hence every store reached from one with unique identifiers, the empty
    one for instance, has unique identifiers. *)
Lemma serve_unique_ids cipher rs w : unique_ids w -> unique_ids (serve cipher rs w).
Proof.
  revert w. induction rs as [|[e r] rs IH]; intros w Huniq; simpl; [exact Huniq|].
  apply IH, app_unique_ids, Huniq.
Qed.

(** ** The properties on the sample data *)

Lemma empty_world_fresh m : ~ stored m empty_world.
Proof. intros (u & Hu & _). inversion Hu. Qed.

Lemma sample_passwords_meet_policy : meets_policy "Secret1" /\ meets_policy "Hunter22".
Proof. split; apply meets_policy_tests; vm_compute; auto. Qed.

Lemma long_password_meets_policy : meets_policy long_password_a.
Proof. apply meets_policy_tests. vm_compute. auto. Qed.

Lemma long_password_registers cipher :
  status (register cipher sample_env None "ada@example.org" None long_password_a
            empty_world).1 = 201%N.
Proof.
  apply register_succeeds_iff. split.
  - apply long_password_meets_policy.
  - apply empty_world_fresh.
Qed.

(** C2 fails as stated: [long_password_a] and [long_password_b] are two
    passwords of 73 characters with the same first 72, hence the same key;
    after a registration with the first, the login with the second succeeds,
    whatever the cipher. *)
Lemma login_accepts_other_password :
  long_password_b <> long_password_a /\
  bcrypt_key long_password_b = bcrypt_key long_password_a /\
  ~ exists cipher, forall e e' n m p pw w,
      status (register cipher e n m p pw w).1 = 201%N ->
      forall pw', pw' <> pw ->
        (login cipher e' m pw' (register cipher e n m p pw w).2).1 = incorrect_password.
Proof.
  assert (Hne : long_password_b <> long_password_a) by (vm_compute; discriminate).
  assert (Hkey : bcrypt_key long_password_b = bcrypt_key long_password_a)
    by (vm_compute; reflexivity).
  split; [exact Hne | split; [exact Hkey |]].
  intros [cipher Hclaim].
  specialize (Hclaim sample_env sample_env None "ada@example.org" None long_password_a
                empty_world (long_password_registers cipher) long_password_b Hne).
  rewrite (login_same_key cipher) in Hclaim;
    [ | apply long_password_registers | exact Hkey].
  discriminate Hclaim.
Qed.

Lemma register_then_login_witness :
  let w' := (register plain_cipher sample_env None "ada@example.org" None "Secret1"
               empty_world).2 in
  (exists token,
     login plain_cipher sample_env "ada@example.org" "Secret1" w' =
       ({| status := 200; body := MessageToken "Login successful!" token |}, w') /\
     jwt_email token = "ada@example.org") /\
  login plain_cipher sample_env "ada@example.org" "Secret2" w' = (incorrect_password, w').
Proof.
  assert (Hok : status (register plain_cipher sample_env None "ada@example.org" None
                          "Secret1" empty_world).1 = 201%N) by reflexivity.
  destruct (register_then_login plain_cipher sample_env sample_env None "ada@example.org"
              None "Secret1" empty_world Hok) as (Hsame & Hother & _).
  split; [exact Hsame|].
  apply Hother. vm_compute. discriminate.
Defined.

Lemma register_twice_witness :
  let first := register plain_cipher sample_env None "ada@example.org" None "Secret1"
                 empty_world in
  status first.1 = 201%N /\
  register plain_cipher sample_env None "ada@example.org" None "Hunter22" first.2
    = (duplicate_user, first.2).
Proof.
  destruct sample_passwords_meet_policy as [H1 H2].
  destruct (register_twice plain_cipher sample_env sample_env None None "ada@example.org"
              None None "Secret1" "Hunter22" empty_world H1 H2) as (Hfirst & Hr2 & Hw2).
  destruct (Hfirst (empty_world_fresh "ada@example.org")) as ((token & Hr1 & _) & _).
  split.
  - rewrite Hr1. reflexivity.
  - apply injective_projections; [exact Hr2 | exact Hw2].
Defined.

Lemma googleLogin_twice_witness :
  usersCollection
    (googleLogin sample_env (Some (JStr "Ada L.")) "ada@example.org" None
       (googleLogin sample_env (Some (JStr "Ada")) "ada@example.org" None empty_world).2).2
  = [ {| name := Some (JStr "Ada"); email := "ada@example.org"; photoURL := None;
         password := None; fromGoogle := Some true |} ].
Proof.
  destruct (googleLogin_twice sample_env sample_env (Some (JStr "Ada")) (Some (JStr "Ada L."))
              "ada@example.org" None None empty_world (empty_world_fresh "ada@example.org"))
    as (Hw1 & Hw2 & _).
  rewrite Hw2, Hw1. reflexivity.
Defined.

(** A registration, a Google login under the same email, a deletion and a
    second registration, from the empty store. *)
Lemma users_invariant_witness :
  unique_emails
    (serve plain_cipher
       [ (sample_env, PostRegister None "ada@example.org" None "Secret1");
         (sample_env, PostGoogleLogin None "ada@example.org" None);
         (sample_env, DeleteCourse math_id);
         (sample_env, PostRegister None "ada@example.org" None "Hunter22") ]
       empty_world).
Proof.
  apply (users_invariant plain_cipher). apply NoDup_nil_2.
Defined.

(** * Further properties *)

(** ** Logging in *)

Lemma find_email_unique m us u :
  NoDup (map email us) -> u ∈ us -> email u = m ->
  List.find (fun v => String.eqb (email v) m) us = Some u.
Proof.
  induction us as [|v us IH]; intros Huniq Hu Hm; [inversion Hu|].
  simpl in Huniq. apply NoDup_cons in Huniq as [Hfresh Huniq]. simpl.
  apply elem_of_cons in Hu as [<- | Hu].
  - rewrite Hm, String.eqb_refl. reflexivity.
  - destruct (String.eqb_spec (email v) m) as [Hv | _]; [|auto].
    destruct Hfresh. rewrite Hv, <- Hm. apply list_elem_of_fmap. exists u. auto.
Qed.

Section MoreCredentials.

Variable cipher : string -> list ascii -> string.

(** X1: [login] never changes the world.  It answers the no-user error
    when no record carries the email; and, the emails being unique, for the
    record that carries it: the server error when the record has no password
    (an account made by Google login), success with a token when the digest
    of the submitted password under the stored salt is the stored digest, and
    the incorrect-password error otherwise. *)
Theorem login_outcomes e m pw w :
  (login cipher e m pw w).2 = w /\
  (~ stored m w -> (login cipher e m pw w).1 = no_user_found) /\
  (unique_emails w -> forall u, u ∈ usersCollection w -> email u = m ->
     (login cipher e m pw w).1 =
       match password u with
       | None => server_error
       | Some h =>
           if String.eqb (cipher (bh_salt h) (bcrypt_key pw)) (bh_digest h)
           then login_ok e m else incorrect_password
       end).
Proof.
  split; [|split].
  - unfold login. unfold_async. simpl.
    destruct (List.find _ (usersCollection w)) as [u|]; [|reflexivity].
    destruct (password u); simpl; [|reflexivity].
    destruct (String.eqb _ _); reflexivity.
  - intros Hfresh%find_email_fresh. unfold login. unfold_async. simpl.
    rewrite Hfresh. reflexivity.
  - intros Huniq u Hu Hm. unfold login. unfold_async. simpl.
    rewrite (find_email_unique m _ u Huniq Hu Hm).
    destruct (password u); simpl; [|reflexivity].
    destruct (String.eqb _ _); reflexivity.
Qed.

(** X2: an account made by Google login cannot log in with a password:
    whatever password is submitted, [login] under that email answers the
    server error, and the store stays as it is. *)
Theorem login_google_account e e' n m p pw w :
  ~ stored m w ->
  let w1 := (googleLogin e n m p w).2 in
  login cipher e' m pw w1 = (server_error, w1).
Proof.
  intros Hfresh w1. subst w1. rewrite googleLogin_new by assumption. simpl.
  unfold login. unfold_async. simpl.
  rewrite (find_email_last m (usersCollection w) (provisioned n m p)).
  - reflexivity.
  - intros v Hv Hm. apply Hfresh. exists v. auto.
  - reflexivity.
Qed.

Lemma googleLogin_stores e n m p w : stored m (googleLogin e n m p w).2.
Proof.
  destruct (find_email_Some_or_fresh m w) as [Hstored | Hfresh].
  - rewrite googleLogin_known by assumption. exact Hstored.
  - rewrite googleLogin_new by assumption.
    apply stored_set_users. exists (provisioned n m p). split; [|reflexivity].
    apply elem_of_app. right. apply list_elem_of_singleton. reflexivity.
Qed.

(** X3: after a Google login under an email, from any store, a
    registration under that email with a password that meets the policy is
    answered with the duplicate-user error and stores nothing. *)
Theorem register_after_googleLogin e e' n n' m p p' pw w :
  meets_policy pw ->
  let w1 := (googleLogin e n m p w).2 in
  register cipher e' n' m p' pw w1 = (duplicate_user, w1).
Proof.
  intros Hpol w1. apply register_duplicate; [exact Hpol|].
  apply googleLogin_stores.
Qed.

(** X4: after a registration that succeeds, a Google login under the same
    email answers success with a token for the email and leaves the world as
    it is: the record keeps its password hash and is not marked as made by
    Google. *)
Theorem googleLogin_after_register e e' n n' m p p' pw w :
  status (register cipher e n m p pw w).1 = 201%N ->
  let w1 := (register cipher e n m p pw w).2 in
  googleLogin e' n' m p' w1 = (google_ok e' m, w1) /\
  List.filter (fun v => String.eqb (email v) m) (usersCollection w1)
    = [registered cipher e n m p pw].
Proof.
  intros [Hpol Hfresh]%register_succeeds_iff w1. split.
  - apply googleLogin_known. apply register_stores. exact Hpol.
  - subst w1. rewrite register_created by assumption. simpl.
    rewrite List.filter_app, (filter_email_fresh m w Hfresh). simpl.
    rewrite String.eqb_refl. reflexivity.
Qed.

(** X5: the outcomes of [register].  It answers 201 exactly when the
    password meets the policy and no record carries the email; it then
    appends one record, with the hash of the password under the drawn salt,
    and touches nothing else.  With any other answer the world is left as it
    was. *)
Theorem register_outcomes e n m p pw w :
  (status (register cipher e n m p pw w).1 = 201%N <-> meets_policy pw /\ ~ stored m w) /\
  (status (register cipher e n m p pw w).1 = 201%N ->
     register cipher e n m p pw w =
       (registration_ok e m, set_users (usersCollection w ++ [registered cipher e n m p pw]) w)) /\
  (status (register cipher e n m p pw w).1 <> 201%N ->
     (register cipher e n m p pw w).2 = w).
Proof.
  split; [apply register_succeeds_iff | split].
  - intros [Hpol Hfresh]%register_succeeds_iff. apply register_created; assumption.
  - unfold register.
    destruct (regex_test class_AZ pw); [|reflexivity].
    destruct (regex_test class_az pw); [|reflexivity].
    destruct (Nat.ltb (String.length pw) 6); [reflexivity|].
    unfold_async. simpl.
    destruct (List.find _ (usersCollection w)); [reflexivity|].
    intros H. destruct H. reflexivity.
Qed.

(** X6: a token is issued only by the three routes that read an email,
    and every token issued names the email of its request, is dated to the
    second of the request and expires seven days (604800 seconds) later. *)
Theorem app_token e r w msg t :
  body (app cipher e r w).1 = MessageToken msg t ->
  request_email r = Some (jwt_email t) /\
  jwt_iat t = (now e / 1000)%Z /\
  (jwt_exp t - jwt_iat t = 604800)%Z.
Proof.
  destruct r; simpl.
  - unfold register.
    destruct (regex_test class_AZ password0); [|discriminate].
    destruct (regex_test class_az password0); [|discriminate].
    destruct (Nat.ltb _ _); [discriminate|].
    unfold_async. simpl. destruct (List.find _ _); [discriminate|].
    simpl. intros [= _ <-]. simpl. repeat split. lia.
  - unfold login. unfold_async. simpl.
    destruct (List.find _ _) as [u|]; [|discriminate].
    destruct (password u); simpl; [|discriminate].
    destruct (String.eqb _ _); [|discriminate].
    simpl. intros [= _ <-]. simpl. repeat split. lia.
  - unfold googleLogin. unfold_async. simpl.
    destruct (List.find _ _); simpl; intros [= _ <-]; simpl; repeat split; lia.
  - discriminate.
  - unfold createCourse. cbv zeta. destruct (_ || _); [discriminate|].
    unfold_async. simpl. destruct (imgbb_reply e); [|discriminate].
    destruct (List.existsb _ _); discriminate.
  - destruct (updateCourse_cases id body0 w) as [H | [H | (o & c & _ & _ & _ & _ & H)]];
      rewrite H; discriminate.
  - unfold deleteCourse. unfold_async. destruct (parse_ObjectId id); discriminate.
  - discriminate.
Qed.

End MoreCredentials.

(** ** Creating a course *)

Lemma required_cases (P : string -> Prop) :
  P "title" -> P "description" -> P "category" -> P "price" -> P "instructor" ->
  P "imageBase64" -> forall k, k ∈ required -> P k.
Proof.
  intros H1 H2 H3 H4 H5 H6 k Hk. unfold required in Hk.
  repeat (apply elem_of_cons in Hk as [-> | Hk]); try assumption. inversion Hk.
Qed.

Lemma complete_or_falsy b : complete b \/ exists k, k ∈ required /\ truthy (b !! k) = false.
Proof.
  unfold complete.
  destruct (truthy (b !! "title")) eqn:H1; [|right; exists "title"; split; [set_solver|done]].
  destruct (truthy (b !! "description")) eqn:H2;
    [|right; exists "description"; split; [set_solver|done]].
  destruct (truthy (b !! "category")) eqn:H3;
    [|right; exists "category"; split; [set_solver|done]].
  destruct (truthy (b !! "price")) eqn:H4; [|right; exists "price"; split; [set_solver|done]].
  destruct (truthy (b !! "instructor")) eqn:H5;
    [|right; exists "instructor"; split; [set_solver|done]].
  destruct (truthy (b !! "imageBase64")) eqn:H6;
    [|right; exists "imageBase64"; split; [set_solver|done]].
  left. apply required_cases; assumption.
Qed.

Lemma existsb_has_id o w :
  List.existsb (has_id o) (coursesCollection w) = false <-> unused o w.
Proof.
  unfold unused. rewrite <- not_true_iff_false, existsb_exists. split.
  - intros Hno c Hc Hid. apply Hno. exists c.
    split; [apply list_elem_of_In; exact Hc | apply has_id_spec; exact Hid].
  - intros Hno (c & Hc & Hid). apply (Hno c); [apply list_elem_of_In; exact Hc|].
    apply has_id_spec. exact Hid.
Qed.

(** Past the guard: the upload, then the insertion. *)
Lemma createCourse_complete e b w :
  complete b ->
  createCourse e b w =
    match imgbb_reply e with
    | None => (server_error, posted (b !! "imageBase64") w)
    | Some url =>
        let c := {| _id := fresh_id e;
                    fields := prop "title" (b !! "title") (prop "description" (b !! "description")
                      (prop "category" (b !! "category") (prop "price" (b !! "price")
                        (prop "instructor" (b !! "instructor")
                          (prop "image" (Some (JStr url))
                            (prop "createdAt" (Some (JDate (now e))) ∅)))))) |} in
        if List.existsb (has_id (fresh_id e)) (coursesCollection w)
        then (server_error, posted (b !! "imageBase64") w)
        else (course_added c,
              set_courses (coursesCollection w ++ [c]) (posted (b !! "imageBase64") w))
    end.
Proof.
  intros Hb. unfold createCourse. cbv zeta.
  rewrite !Hb by (unfold required; set_solver). simpl.
  unfold_async. simpl. destruct (imgbb_reply e); [|reflexivity].
  destruct (List.existsb _ _); reflexivity.
Qed.

(** X7: a creation with all six properties truthy, an answer from the
    image host and an identifier that no course has.  The image is posted
    once, one record is appended to the courses and answered with 201; the
    record carries the drawn identifier, the five properties title,
    description, category, price and instructor as submitted, the hosted
    address as image and the time of the request as createdAt, and nothing
    else: neither the image data nor any other property of the body. *)
Theorem createCourse_created e b w url :
  complete b -> imgbb_reply e = Some url -> unused (fresh_id e) w ->
  exists c,
    createCourse e b w =
      (course_added c,
       set_courses (coursesCollection w ++ [c]) (posted (b !! "imageBase64") w)) /\
    _id c = fresh_id e /\
    dom (fields c) = stored_names /\
    (forall k, k ∈ ["title"; "description"; "category"; "price"; "instructor"] ->
       fields c !! k = b !! k) /\
    fields c !! "image" = Some (JStr url) /\
    fields c !! "createdAt" = Some (JDate (now e)).
Proof.
  intros Hb Hurl Hfree. rewrite (createCourse_complete e b w Hb), Hurl. cbv zeta.
  rewrite (proj2 (existsb_has_id _ _) Hfree).
  eexists. split; [reflexivity|]. cbn [_id fields].
  assert (Hsome : forall k, k ∈ required -> is_Some (b !! k)).
  { intros k Hk. specialize (Hb k Hk). destruct (b !! k); [eauto | discriminate]. }
  destruct (Hsome "title") as [v1 H1]; [unfold required; set_solver|].
  destruct (Hsome "description") as [v2 H2]; [unfold required; set_solver|].
  destruct (Hsome "category") as [v3 H3]; [unfold required; set_solver|].
  destruct (Hsome "price") as [v4 H4]; [unfold required; set_solver|].
  destruct (Hsome "instructor") as [v5 H5]; [unfold required; set_solver|].
  rewrite H1, H2, H3, H4, H5. unfold prop.
  split; [reflexivity|]. split; [|split; [|split]].
  - unfold stored_names. rewrite !dom_insert_L, dom_empty_L. set_solver.
  - intros k Hk.
    repeat (apply elem_of_cons in Hk as [-> | Hk]); [| | | | |inversion Hk];
      simplify_map_eq; congruence.
  - simplify_map_eq. reflexivity.
  - simplify_map_eq. reflexivity.
Qed.

(** X8: when the creation fails past the guard, the image stays posted.
    With all six properties truthy, if the image host fails, or if it
    answers and the store refuses the drawn identifier because a course has
    it, the answer is the server error, no course is stored, and the post to
    the image host has been made. *)
Theorem createCourse_fails_after_upload e b w :
  complete b ->
  imgbb_reply e = None \/ (exists c, c ∈ coursesCollection w /\ _id c = fresh_id e) ->
  createCourse e b w = (server_error, posted (b !! "imageBase64") w).
Proof.
  intros Hb Hfail. rewrite (createCourse_complete e b w Hb).
  destruct (imgbb_reply e) as [url|]; [|reflexivity].
  destruct Hfail as [Hnone | (c & Hc & Hid)]; [discriminate|]. cbv zeta.
  destruct (List.existsb _ _) eqn:Hex; [reflexivity|].
  apply existsb_has_id in Hex. destruct (Hex c Hc Hid).
Qed.

(** X9: the guard of [createCourse], both ways.  The answer has status
    400 exactly when one of the six properties is falsy, and then the world
    is as before; when all six are truthy the image is posted, whatever
    happens next. *)
Theorem createCourse_guard e b w :
  (status (createCourse e b w).1 = 400%N <->
     exists k, k ∈ required /\ truthy (b !! k) = false) /\
  ((exists k, k ∈ required /\ truthy (b !! k) = false) -> (createCourse e b w).2 = w) /\
  (complete b ->
     imgbb_posts (createCourse e b w).2 = imgbb_posts w ++ [b !! "imageBase64"]).
Proof.
  assert (Hposted : complete b ->
            status (createCourse e b w).1 <> 400%N /\
            imgbb_posts (createCourse e b w).2 = imgbb_posts w ++ [b !! "imageBase64"]).
  { intros Hb. rewrite (createCourse_complete e b w Hb).
    destruct (imgbb_reply e); [|split; [discriminate | reflexivity]]. cbv zeta.
    destruct (List.existsb _ _); split; (discriminate || reflexivity). }
  split; [|split].
  - split.
    + intros H400. destruct (complete_or_falsy b) as [Hb | Hk]; [|exact Hk].
      destruct (proj1 (Hposted Hb) H400).
    + intros (k & Hk & Hfalsy). rewrite (createCourse_falsy e b w k Hk Hfalsy). reflexivity.
  - intros (k & Hk & Hfalsy). rewrite (createCourse_falsy e b w k Hk Hfalsy). reflexivity.
  - intros Hb. apply Hposted. exact Hb.
Qed.

(** *** A created course, listed and deleted *)

Lemma delete_first_last o cs c :
  (forall x, x ∈ cs -> _id x <> o) -> _id c = o -> delete_first o (cs ++ [c]) = cs.
Proof.
  intros Hno Hc. induction cs as [|x cs IH]; simpl.
  - rewrite (proj2 (has_id_spec o c) Hc). reflexivity.
  - rewrite (proj2 (has_id_false o x)) by (apply Hno; left).
    rewrite IH; [reflexivity|]. intros y Hy. apply Hno. right. exact Hy.
Qed.

(** X10: a course that has been created is listed.  After a creation that
    succeeds, with the string [cat] as category, the list of all courses is
    the former list followed by the new record, and so is the list under the
    filter [cat] with respect to the former list under that filter. *)
Theorem createCourse_then_list e b w url cat :
  complete b -> imgbb_reply e = Some url -> unused (fresh_id e) w ->
  b !! "category" = Some (JStr cat) ->
  exists c,
    (createCourse e b w).1 = course_added c /\
    let w' := (createCourse e b w).2 in
    listCourses None w' =
      ({| status := 200; body := Courses (coursesCollection w ++ [c]) |}, w') /\
    listCourses (Some cat) w' =
      ({| status := 200;
          body := Courses (filter (category_is cat) (coursesCollection w) ++ [c]) |}, w').
Proof.
  intros Hb Hurl Hfree Hcat.
  assert (Hne : truthy (JStr <$> Some cat) = true).
  { specialize (Hb "category" ltac:(unfold required; set_solver)).
    rewrite Hcat in Hb. exact Hb. }
  rewrite (createCourse_complete e b w Hb), Hurl. cbv zeta.
  rewrite (proj2 (existsb_has_id _ _) Hfree).
  eexists. split; [reflexivity|]. cbv zeta. split.
  - unfold listCourses. unfold_async. simpl. rewrite filter_matches_all. reflexivity.
  - unfold listCourses. unfold_async. rewrite Hne.
    cbn [fst snd coursesCollection set_courses posted].
    rewrite List.filter_app, filter_matches_category. cbn [List.filter].
    replace (matches (Some cat) _) with true; [reflexivity|].
    symmetry. apply matches_category. unfold category_is. cbn [fields].
    destruct (b !! "title"), (b !! "description"), (b !! "price"), (b !! "instructor");
      rewrite Hcat; unfold prop; simplify_map_eq; reflexivity.
Qed.

(** X11: creating a course and deleting it by the identifier it was given
    restores the courses; the post to the image host remains. *)
Theorem createCourse_then_delete e b w url id :
  complete b -> imgbb_reply e = Some url -> unused (fresh_id e) w ->
  parse_ObjectId id = Some (fresh_id e) ->
  let w' := (createCourse e b w).2 in
  (deleteCourse id w').1 = deleted_ok /\
  coursesCollection (deleteCourse id w').2 = coursesCollection w /\
  imgbb_posts (deleteCourse id w').2 = imgbb_posts w ++ [b !! "imageBase64"].
Proof.
  intros Hb Hurl Hfree Hid w'. subst w'.
  rewrite (createCourse_complete e b w Hb), Hurl. cbv zeta.
  rewrite (proj2 (existsb_has_id _ _) Hfree).
  unfold deleteCourse. unfold_async. rewrite Hid. simpl.
  rewrite delete_first_last; [auto | exact Hfree | reflexivity].
Qed.

(** ** Updates and deletions, composed *)

Lemma plain_set_union b1 b2 : plain_set b1 -> plain_set b2 -> plain_set (b2 ∪ b1).
Proof.
  intros H1 H2 k v Hk. apply lookup_union_Some_raw in Hk as [Hk | [_ Hk]].
  - exact (H2 k v Hk).
  - exact (H1 k v Hk).
Qed.

Lemma apply_set_compose b1 b2 c :
  plain_set b1 -> plain_set b2 ->
  apply_set b2 (apply_set b1 c) = apply_set (b2 ∪ b1) c.
Proof.
  intros H1 H2. apply course_eq; [reflexivity|]. intros q.
  rewrite (lookup_apply_plain b2 _ q H2), (lookup_apply_plain b1 c q H1).
  rewrite (lookup_apply_plain (b2 ∪ b1) c q (plain_set_union b1 b2 H1 H2)).
  rewrite lookup_union. destruct (b2 !! field_of q), (b1 !! field_of q); reflexivity.
Qed.

Lemma update_first_compose o b1 b2 cs :
  plain_set b1 -> plain_set b2 ->
  update_first o (apply_set b2) (update_first o (apply_set b1) cs)
  = update_first o (apply_set (b2 ∪ b1)) cs.
Proof.
  intros H1 H2. induction cs as [|c cs IH]; [reflexivity|]. simpl.
  destruct (has_id o c) eqn:Hc; simpl.
  - change (has_id o (apply_set b1 c)) with (has_id o c). rewrite Hc.
    rewrite apply_set_compose by assumption. reflexivity.
  - rewrite Hc, IH. reflexivity.
Qed.

Lemma update_first_idemp o b cs :
  update_first o (apply_set b) (update_first o (apply_set b) cs)
  = update_first o (apply_set b) cs.
Proof.
  induction cs as [|c cs IH]; [reflexivity|]. simpl.
  destruct (has_id o c) eqn:Hc; simpl.
  - change (has_id o (apply_set b c)) with (has_id o c). rewrite Hc.
    rewrite apply_set_idemp. reflexivity.
  - rewrite Hc, IH. reflexivity.
Qed.

Lemma find_update_first o b cs :
  List.find (has_id o) (update_first o (apply_set b) cs)
  = apply_set b <$> List.find (has_id o) cs.
Proof.
  induction cs as [|c cs IH]; [reflexivity|]. simpl.
  destruct (has_id o c) eqn:Hc; simpl.
  - change (has_id o (apply_set b c)) with (has_id o c). rewrite Hc. reflexivity.
  - rewrite Hc. exact IH.
Qed.

Lemma delete_update_first o b cs :
  delete_first o (update_first o (apply_set b) cs) = delete_first o cs.
Proof.
  induction cs as [|c cs IH]; [reflexivity|]. simpl.
  destruct (has_id o c) eqn:Hc; simpl.
  - change (has_id o (apply_set b c)) with (has_id o c). rewrite Hc. reflexivity.
  - rewrite Hc, IH. reflexivity.
Qed.

Lemma delete_first_comm o1 o2 cs :
  delete_first o1 (delete_first o2 cs) = delete_first o2 (delete_first o1 cs).
Proof.
  induction cs as [|c cs IH]; [reflexivity|]. simpl.
  destruct (has_id o2 c) eqn:H2, (has_id o1 c) eqn:H1; simpl; rewrite ?H1, ?H2.
  - apply has_id_spec in H1, H2. congruence.
  - reflexivity.
  - reflexivity.
  - rewrite IH. reflexivity.
Qed.

(** What an update does, step by step, for an identifier that parses. *)
Lemma updateCourse_run id o b w :
  parse_ObjectId id = Some o ->
  updateCourse id b w =
    if set_parses b then
      match List.find (has_id o) (coursesCollection w) with
      | None => (updated_ok, w)
      | Some c =>
          if set_refused b (fields c) then (server_error, w)
          else (updated_ok,
                set_courses (update_first o (apply_set b) (coursesCollection w)) w)
      end
    else (server_error, w).
Proof.
  intros Hid. unfold updateCourse. unfold_async. rewrite Hid.
  destruct (set_parses b); [|reflexivity].
  destruct (List.find _ _) as [c|]; [|reflexivity].
  destruct (set_refused b (fields c)); reflexivity.
Qed.

Lemma updateCourse_malformed id b w :
  parse_ObjectId id = None -> updateCourse id b w = (server_error, w).
Proof. intros Hid. unfold updateCourse. unfold_async. rewrite Hid. reflexivity. Qed.

(** An update of plainly named fields, for an identifier that parses. *)
Lemma updateCourse_plain id o b w :
  parse_ObjectId id = Some o -> plain_set b ->
  updateCourse id b w =
    (updated_ok,
     match List.find (has_id o) (coursesCollection w) with
     | None => w
     | Some _ => set_courses (update_first o (apply_set b) (coursesCollection w)) w
     end).
Proof.
  intros Hid Hb. rewrite (updateCourse_run id o b w Hid), (plain_set_parses b Hb).
  destruct (List.find _ _) as [c|]; [|reflexivity].
  rewrite (plain_set_accepted b (fields c) Hb). reflexivity.
Qed.

(** X12: an update is idempotent: sent a second time, with the same
    identifier and the same fields, it is answered as the first time and
    leaves the world as the first left it. *)
Theorem updateCourse_idempotent id b w :
  updateCourse id b (updateCourse id b w).2 = updateCourse id b w.
Proof.
  destruct (updateCourse_cases id b w)
    as [H | [H | (o & c & Hid & Hfind & Hparse & Hok & H)]].
  - rewrite H. simpl. exact H.
  - rewrite H. simpl. exact H.
  - rewrite H. cbn [snd]. rewrite (updateCourse_run id o b _ Hid), Hparse.
    cbn [coursesCollection set_courses]. rewrite find_update_first, Hfind.
    change (apply_set b <$> Some c) with (Some (apply_set b c)). cbv beta iota.
    rewrite (refused_after_apply b c Hparse Hok), update_first_idemp. reflexivity.
Qed.

(** X13: two updates of one identifier amount to one update with the
    fields of both, those of the second taking precedence, when the fields of
    both are plainly named (fields of the record itself, other than [_id]):
    same answer, same world. *)
Theorem updateCourse_compose id b1 b2 w :
  plain_set b1 -> plain_set b2 ->
  updateCourse id b2 (updateCourse id b1 w).2 = updateCourse id (b2 ∪ b1) w.
Proof.
  intros H1 H2. pose proof (plain_set_union b1 b2 H1 H2) as H12.
  destruct (parse_ObjectId id) as [o|] eqn:Hid.
  - rewrite (updateCourse_plain id o b1 w Hid H1). simpl.
    rewrite (updateCourse_plain id o b2 _ Hid H2), (updateCourse_plain id o _ w Hid H12).
    destruct (List.find (has_id o) (coursesCollection w)) as [c|] eqn:Hfind; simpl.
    + rewrite find_update_first, Hfind. simpl.
      rewrite update_first_compose by assumption. reflexivity.
    + rewrite Hfind. reflexivity.
  - rewrite !updateCourse_malformed by exact Hid. reflexivity.
Qed.

Lemma updateCourse_compose_witness :
  updateCourse math_id {[ "price" := JNum 30 ]}
    (updateCourse math_id {[ "title" := JStr "Logic" ]} catalog).2
  = updateCourse math_id ({[ "price" := JNum 30 ]} ∪ {[ "title" := JStr "Logic" ]}) catalog.
Proof.
  apply updateCourse_compose; apply map_Forall_singleton; reflexivity.
Defined.

(** X14: an update before a deletion of the same identifier makes no
    difference to the deletion: same answer, same world, whatever the fields
    of the update. *)
Theorem updateCourse_then_delete id b w :
  deleteCourse id (updateCourse id b w).2 = deleteCourse id w.
Proof.
  destruct (updateCourse_cases id b w)
    as [H | [H | (o & c & Hid & _ & _ & _ & H)]]; rewrite H; [reflexivity .. |].
  unfold deleteCourse. unfold_async. rewrite Hid. simpl.
  rewrite delete_update_first. reflexivity.
Qed.

(** X15: deletions commute: two deletions leave the same world in either
    order, whatever the two identifiers. *)
Theorem deleteCourse_comm id1 id2 w :
  (deleteCourse id1 (deleteCourse id2 w).2).2 = (deleteCourse id2 (deleteCourse id1 w).2).2.
Proof.
  unfold deleteCourse. unfold_async.
  destruct (parse_ObjectId id1) as [o1|], (parse_ObjectId id2) as [o2|]; simpl;
    try reflexivity.
  rewrite delete_first_comm. reflexivity.
Qed.

(** X16: the errors of the two routes that take an identifier.  Each
    answers either success or the server error, and the server error leaves
    the world as it was.  An identifier that is neither 12 nor 24 characters
    long, which no version of the driver reads as an ObjectId, gets the
    server error from both.  An identifier of 24 hexadecimal digits gets
    success from a deletion, whether or not a record has it; and it gets the
    server error from an update that lists [_id] when a record has it. *)
Theorem id_route_errors id b w :
  (String.length id <> 12 -> String.length id <> 24 ->
     deleteCourse id w = (server_error, w) /\ updateCourse id b w = (server_error, w)) /\
  (is_Some (parse_ObjectId id) -> (deleteCourse id w).1 = deleted_ok) /\
  (forall c, c ∈ coursesCollection w -> parse_ObjectId id = Some (_id c) ->
     is_Some (b !! "_id") -> updateCourse id b w = (server_error, w)) /\
  ((deleteCourse id w).1 = server_error \/ (deleteCourse id w).1 = deleted_ok) /\
  ((updateCourse id b w).1 = server_error \/ (updateCourse id b w).1 = updated_ok) /\
  ((deleteCourse id w).1 = server_error -> (deleteCourse id w).2 = w) /\
  ((updateCourse id b w).1 = server_error -> (updateCourse id b w).2 = w).
Proof.
  assert (Hdel : deleteCourse id w =
            match parse_ObjectId id with
            | Some o => (deleted_ok, set_courses (delete_first o (coursesCollection w)) w)
            | None => (server_error, w)
            end).
  { unfold deleteCourse. unfold_async. destruct (parse_ObjectId id); reflexivity. }
  split; [|split; [|split; [|split; [|split; [|split]]]]].
  - intros _ Hlen. apply Nat.eqb_neq in Hlen.
    assert (Hid : parse_ObjectId id = None) by (unfold parse_ObjectId; rewrite Hlen; reflexivity).
    rewrite Hdel, Hid, (updateCourse_malformed id b w Hid). split; reflexivity.
  - intros [o Hid]. rewrite Hdel, Hid. reflexivity.
  - intros c Hc Hid [v Hv]. rewrite (updateCourse_run id _ b w Hid).
    destruct (set_parses b); [|reflexivity].
    destruct (List.find (has_id (_id c)) (coursesCollection w)) as [found|] eqn:Hfind.
    + replace (set_refused b (fields found)) with true; [reflexivity|].
      symmetry. unfold set_refused. apply bool_decide_eq_true. apply map_Exists_lookup.
      exists "_id", v. split; [exact Hv | left; reflexivity].
    + destruct (proj1 (find_id_None _ _) Hfind c Hc). reflexivity.
  - rewrite Hdel. destruct (parse_ObjectId id); simpl; auto.
  - destruct (updateCourse_cases id b w) as [H | [H | (o & c & _ & _ & _ & _ & H)]];
      rewrite H; simpl; auto.
  - rewrite Hdel. destruct (parse_ObjectId id); simpl; [discriminate | reflexivity].
  - destruct (updateCourse_cases id b w) as [H | [H | (o & c & _ & _ & _ & _ & H)]];
      rewrite H; simpl; (discriminate || reflexivity).
Qed.

(** ** What each route leaves alone *)

(** X17: the image host is contacted by one route only, [POST /courses],
    and only past its guard: a request either leaves the log of posts as it
    is, or it is a creation with all six properties truthy and the log grows
    by the one post of its image data. *)
Theorem app_image_host cipher e r w :
  imgbb_posts (app cipher e r w).2 = imgbb_posts w \/
  exists b, r = PostCourses b /\ complete b /\
    imgbb_posts (app cipher e r w).2 = imgbb_posts w ++ [b !! "imageBase64"].
Proof.
  destruct r as [n m p pw | m pw | n m p | c | b | id b | id |]; simpl.
  - left. unfold register.
    destruct (regex_test class_AZ pw); [|reflexivity].
    destruct (regex_test class_az pw); [|reflexivity].
    destruct (Nat.ltb _ _); [reflexivity|].
    unfold_async. simpl. destruct (List.find _ _); reflexivity.
  - left. unfold login. unfold_async. simpl.
    destruct (List.find _ _) as [u|]; [|reflexivity].
    destruct (password u); simpl; [|reflexivity].
    destruct (String.eqb _ _); reflexivity.
  - left. unfold googleLogin. unfold_async. simpl. destruct (List.find _ _); reflexivity.
  - left. reflexivity.
  - destruct (complete_or_falsy b) as [Hb | (k & Hk & Hfalsy)].
    + right. exists b. split; [reflexivity|]. split; [exact Hb|].
      rewrite (createCourse_complete e b w Hb).
      destruct (imgbb_reply e); [|reflexivity]. cbv zeta.
      destruct (List.existsb _ _); reflexivity.
    + left. rewrite (createCourse_falsy e b w k Hk Hfalsy). reflexivity.
  - left.
    destruct (updateCourse_cases id b w) as [H | [H | (o & c & _ & _ & _ & _ & H)]];
      rewrite H; reflexivity.
  - left. unfold deleteCourse. unfold_async. destruct (parse_ObjectId id); reflexivity.
  - left. reflexivity.
Qed.

Lemma delete_first_sublist o cs : delete_first o cs `sublist_of` cs.
Proof.
  induction cs as [|c cs IH]; [reflexivity|]. simpl.
  destruct (has_id o c); [apply sublist_cons | apply sublist_skip]; [reflexivity | exact IH].
Qed.

(** X18: what each route does to the collection of courses.  The three
    credential routes and the two reading routes leave it as it is; a
    creation leaves it or appends one record; an update keeps the
    identifiers of the records, in place; a deletion leaves a sublist, with
    at most one record fewer. *)
Theorem app_courses_frame cipher e r w :
  let cs := coursesCollection w in
  let cs' := coursesCollection (app cipher e r w).2 in
  match r with
  | PostCourses _ => cs' = cs \/ exists c, cs' = cs ++ [c] /\ _id c = fresh_id e
  | PutCourse _ _ => map _id cs' = map _id cs
  | DeleteCourse _ => cs' `sublist_of` cs /\ length cs <= S (length cs')
  | _ => cs' = cs
  end.
Proof.
  destruct r as [n m p pw | m pw | n m p | c | b | id b | id |]; simpl.
  - unfold register.
    destruct (regex_test class_AZ pw); [|reflexivity].
    destruct (regex_test class_az pw); [|reflexivity].
    destruct (Nat.ltb _ _); [reflexivity|].
    unfold_async. simpl. destruct (List.find _ _); reflexivity.
  - unfold login. unfold_async. simpl.
    destruct (List.find _ _) as [u|]; [|reflexivity].
    destruct (password u); simpl; [|reflexivity].
    destruct (String.eqb _ _); reflexivity.
  - unfold googleLogin. unfold_async. simpl. destruct (List.find _ _); reflexivity.
  - reflexivity.
  - destruct (complete_or_falsy b) as [Hb | (k & Hk & Hfalsy)].
    + rewrite (createCourse_complete e b w Hb).
      destruct (imgbb_reply e); [|left; reflexivity]. cbv zeta.
      destruct (List.existsb _ _); [left; reflexivity|].
      right. eexists. split; reflexivity.
    + left. rewrite (createCourse_falsy e b w k Hk Hfalsy). reflexivity.
  - destruct (updateCourse_cases id b w) as [H | [H | (o & c & _ & _ & _ & _ & H)]];
      rewrite H; [reflexivity .. |]. simpl. apply update_first_ids.
  - unfold deleteCourse. unfold_async.
    destruct (parse_ObjectId id) as [o|]; simpl; [|split; [reflexivity | lia]].
    split; [apply delete_first_sublist|].
    induction (coursesCollection w) as [|x cs IH]; simpl; [lia|].
    destruct (has_id o x); simpl; lia.
  - reflexivity.
Qed.

(** X19: the identifiers of the courses stay unique: served one after the
    other from a store whose courses have distinct identifiers, the routes
    keep them distinct. *)
Theorem course_ids_stay_unique cipher rs w :
  unique_ids w -> unique_ids (serve cipher rs w).
Proof.
  revert w. induction rs as [|[e r] rs IH]; intros w Huniq; simpl.
  - exact Huniq.
  - apply IH. destruct r; simpl.
    + apply (app_unique_ids cipher e (PostRegister name0 email0 photoURL0 password0) w Huniq).
    + apply (app_unique_ids cipher e (PostLogin email0 password0) w Huniq).
    + apply (app_unique_ids cipher e (PostGoogleLogin name0 email0 photoURL0) w Huniq).
    + exact Huniq.
    + apply createCourse_unique_ids. exact Huniq.
    + apply updateCourse_unique_ids. exact Huniq.
    + apply deleteCourse_unique_ids. exact Huniq.
    + exact Huniq.
Qed.

(** ** The further properties on the sample data *)

Lemma algebra_body_complete : complete algebra_body.
Proof.
  unfold complete.
  apply (required_cases (fun k => truthy (algebra_body !! k) = true)); vm_compute; reflexivity.
Qed.

Lemma empty_world_unused o : unused o empty_world.
Proof. intros c Hc. inversion Hc. Qed.

Lemma login_google_account_witness :
  login plain_cipher sample_env "ada@example.org" "Secret1"
    (googleLogin sample_env None "ada@example.org" None empty_world).2
  = (server_error, (googleLogin sample_env None "ada@example.org" None empty_world).2).
Proof.
  apply (login_google_account plain_cipher sample_env sample_env None "ada@example.org"
           None "Secret1" empty_world (empty_world_fresh "ada@example.org")).
Defined.

Lemma register_after_googleLogin_witness :
  register plain_cipher sample_env None "ada@example.org" None "Secret1"
    (googleLogin sample_env None "ada@example.org" None empty_world).2
  = (duplicate_user, (googleLogin sample_env None "ada@example.org" None empty_world).2).
Proof.
  apply (register_after_googleLogin plain_cipher sample_env sample_env None None
           "ada@example.org" None None "Secret1" empty_world).
  apply sample_passwords_meet_policy.
Defined.

Lemma googleLogin_after_register_witness :
  let w1 := (register plain_cipher sample_env None "ada@example.org" None "Secret1"
               empty_world).2 in
  googleLogin sample_env (Some (JStr "Ada")) "ada@example.org" None w1
  = (google_ok sample_env "ada@example.org", w1).
Proof.
  assert (Hok : status (register plain_cipher sample_env None "ada@example.org" None
                          "Secret1" empty_world).1 = 201%N) by reflexivity.
  apply (googleLogin_after_register plain_cipher sample_env sample_env None
           (Some (JStr "Ada")) "ada@example.org" None None "Secret1" empty_world Hok).
Defined.

Lemma app_token_witness :
  request_email (PostRegister None "ada@example.org" None "Secret1")
  = Some "ada@example.org".
Proof.
  assert (Hbody : body (app plain_cipher sample_env
                          (PostRegister None "ada@example.org" None "Secret1")
                          empty_world).1
                  = MessageToken "Registration successful!"
                      (token_for sample_env "ada@example.org")) by reflexivity.
  exact (proj1 (app_token plain_cipher sample_env _ empty_world _ _ Hbody)).
Defined.

Lemma createCourse_created_witness :
  exists c, createCourse sample_env algebra_body empty_world =
    (course_added c,
     set_courses [c] (posted (Some (JStr "iVBORw0KGgo=")) empty_world)) /\
    fields c !! "level" = None.
Proof.
  destruct (createCourse_created sample_env algebra_body empty_world
              "https://i.ibb.co/x/cover.png" algebra_body_complete eq_refl
              (empty_world_unused 2%N)) as (c & Hrun & _ & Hdom & _).
  exists c. split; [exact Hrun|].
  apply not_elem_of_dom. rewrite Hdom.
  apply (bool_decide_unpack _). vm_compute. exact I.
Defined.

Lemma createCourse_fails_after_upload_witness :
  createCourse host_down algebra_body catalog
  = (server_error, posted (Some (JStr "iVBORw0KGgo=")) catalog) /\
  createCourse sample_env algebra_body catalog
  = (server_error, posted (Some (JStr "iVBORw0KGgo=")) catalog).
Proof.
  split.
  - apply (createCourse_fails_after_upload host_down algebra_body catalog
             algebra_body_complete). left. reflexivity.
  - apply (createCourse_fails_after_upload sample_env algebra_body catalog
             algebra_body_complete). right. exists art_course.
    split; [|reflexivity]. right. left.
Defined.

Lemma catalog_unused_3 : unused 3%N catalog.
Proof.
  intros c Hc. unfold catalog in Hc. simpl in Hc.
  repeat (apply elem_of_cons in Hc as [-> | Hc]); [discriminate .. | inversion Hc].
Qed.

Lemma createCourse_then_list_witness :
  exists c,
    listCourses (Some "math") (createCourse later_env algebra_body catalog).2
    = ({| status := 200; body := Courses [math_course; c] |},
       (createCourse later_env algebra_body catalog).2).
Proof.
  destruct (createCourse_then_list later_env algebra_body catalog
              "https://i.ibb.co/y/algebra.png" "math" algebra_body_complete eq_refl
              catalog_unused_3 ltac:(vm_compute; reflexivity)) as (c & _ & _ & Hlist).
  exists c. exact Hlist.
Defined.

Lemma createCourse_then_delete_witness :
  coursesCollection
    (deleteCourse later_id (createCourse later_env algebra_body catalog).2).2
  = [math_course; art_course].
Proof.
  apply (createCourse_then_delete later_env algebra_body catalog
           "https://i.ibb.co/y/algebra.png" later_id algebra_body_complete eq_refl
           catalog_unused_3 eq_refl).
Defined.

(** A creation, an update of the record created, a deletion of an older
    record and a creation for which the driver draws an identifier in use,
    from the two courses of [catalog]. *)
Lemma course_ids_stay_unique_witness :
  unique_ids
    (serve plain_cipher
       [ (later_env, PostCourses algebra_body);
         (sample_env, PutCourse later_id {[ "price" := JNum 25 ]});
         (sample_env, DeleteCourse math_id);
         (sample_env, PostCourses algebra_body) ]
       catalog).
Proof.
  apply (course_ids_stay_unique plain_cipher). apply catalog_unique_ids.
Defined.

(** ** Google login, from any store *)

(** X20: [googleLogin] has no failing answer: from any store it answers
    success with a token for the email.  When a record carries the email,
    made by either route, the world is left as it is; otherwise one record is
    appended, marked as made by Google and without a password, and nothing
    else changes. *)
Theorem googleLogin_outcomes e n m p w :
  (googleLogin e n m p w).1 = google_ok e m /\
  (stored m w -> (googleLogin e n m p w).2 = w) /\
  (~ stored m w ->
     (googleLogin e n m p w).2 = set_users (usersCollection w ++ [provisioned n m p]) w).
Proof.
  split; [|split].
  - destruct (find_email_Some_or_fresh m w) as [Hstored | Hfresh].
    + rewrite googleLogin_known by assumption. reflexivity.
    + rewrite googleLogin_new by assumption. reflexivity.
  - intros Hstored. rewrite googleLogin_known by assumption. reflexivity.
  - intros Hfresh. rewrite googleLogin_new by assumption. reflexivity.
Qed.
